(** * ICP deterministic AI gateway: request-fingerprint cache coordinator

    A shallow embedding of [src/utils.ts], [src/durable-object.ts] and the
    worker entry point, and the properties of the gateway specification
    checked against it.

    Conventions of the embedding.
    - A JavaScript string is the [string] of its UTF-8 bytes, so that
      [TextEncoder.encode] is the list of its characters' codes.
    - A JavaScript number is a binary64 number. One that is integral is
      the integer [Z] it equals (so the [n] of [JNumber n] is an integer
      that binary64 holds, as every integer below [2^53] in magnitude is);
      one that is not integral is carried as the text [Number::toString]
      prints for it, [Infinity] and [-Infinity] among them (requests only
      compare and print their numbers). Where the code computes on
      numbers, for the retention sweep, the rounding of every operation
      is written out ([Double]). The sign of a zero is not tracked: the
      code never tells [-0] from [0].
    - The texts and traces that the runtime chooses (the message of the
      [DataError] of [importKey], what [error.stack] reads) are taken from
      an [Engine], of which nothing is assumed.
    - [Date.now()] is constant between two suspension points of a handler
      (the Workers runtime only advances the clock on I/O); each atomic
      step receives the current time as an argument.
    - A Durable Object delivers no other event while one of its storage
      reads is in flight, so a storage read and the synchronous code that
      follows it up to the next [await] form one atomic step. *)

From Stdlib Require Import ZArith Ascii String Lia.
From stdpp Require Import base option list gmap strings fin_maps pretty.

Local Open Scope string_scope.
Local Open Scope Z_scope.

(** ** Bytes and hexadecimal text *)

Module Bytes.

(** [new TextEncoder().encode(s)] *)
Definition encode (s : string) : list Z :=
  map (fun c => Z.of_N (N_of_ascii c)) (list_ascii_of_string s).

Definition hexDigit (d : Z) : ascii :=
  if d <? 10 then ascii_of_N (Z.to_N (48 + d))
  else ascii_of_N (Z.to_N (87 + d)).

(** [b.toString(16).padStart(2, '0')] for a byte [b] *)
Definition hexByte (b : Z) : string :=
  String (hexDigit (Z.shiftr b 4)) (String (hexDigit (Z.land b 15)) EmptyString).

(** [Array.from(bytes).map(b => ...).join('')] *)
Definition toHex (bs : list Z) : string :=
  fold_right (fun b acc => hexByte b +:+ acc) "" bs.

(** Big-endian bytes of the low [8 * n] bits of [x]. *)
Fixpoint bigEndian (n : nat) (x : Z) : list Z :=
  match n with
  | O => []
  | S n' => Z.land (Z.shiftr x (8 * Z.of_nat n')) 255 :: bigEndian n' x
  end.

Fixpoint fromBigEndian (bs : list Z) (acc : Z) : Z :=
  match bs with
  | [] => acc
  | b :: bs' => fromBigEndian bs' (Z.lor (Z.shiftl acc 8) b)
  end.

End Bytes.

(** ** SHA-256 (FIPS 180-4), the digest behind [crypto.subtle.digest] *)

Module Sha256.

Definition w32 (x : Z) : Z := Z.land x 4294967295.
Definition add32 (x y : Z) : Z := w32 (x + y).
Definition rotr (n x : Z) : Z :=
  Z.lor (Z.shiftr x n) (w32 (Z.shiftl x (32 - n))).
Definition not32 (x : Z) : Z := Z.lxor x 4294967295.

Definition Ch (x y z : Z) : Z := Z.lxor (Z.land x y) (Z.land (not32 x) z).
Definition Maj (x y z : Z) : Z :=
  Z.lxor (Z.lxor (Z.land x y) (Z.land x z)) (Z.land y z).
Definition Sigma0 (x : Z) : Z := Z.lxor (Z.lxor (rotr 2 x) (rotr 13 x)) (rotr 22 x).
Definition Sigma1 (x : Z) : Z := Z.lxor (Z.lxor (rotr 6 x) (rotr 11 x)) (rotr 25 x).
Definition sigma0 (x : Z) : Z := Z.lxor (Z.lxor (rotr 7 x) (rotr 18 x)) (Z.shiftr x 3).
Definition sigma1 (x : Z) : Z := Z.lxor (Z.lxor (rotr 17 x) (rotr 19 x)) (Z.shiftr x 10).

(** The first 64 primes. *)
Definition isPrime (n : Z) : bool :=
  forallb (fun d => negb (n mod d =? 0)) (map Z.of_nat (seq 2 (Z.to_nat n - 2))).

Definition primes : list Z :=
  Eval vm_compute in List.filter isPrime (map Z.of_nat (seq 2 310)).

(** The integer cube root, one bit at a time from bit [bits - 1] down. *)
Fixpoint cubeRoot (bits : nat) (n r : Z) : Z :=
  match bits with
  | O => r
  | S b =>
      let r' := Z.lor r (Z.shiftl 1 (Z.of_nat b)) in
      cubeRoot b n (if r' * r' * r' <=? n then r' else r)
  end.

(** The round constants: the first 32 bits of the fractional parts of the
    cube roots of the first 64 primes. *)
Definition K : list Z :=
  Eval vm_compute in map (fun q => w32 (cubeRoot 40 (Z.shiftl q 96) 0)) primes.

(** The initial hash value: the first 32 bits of the fractional parts of
    the square roots of the first 8 primes. *)
Definition H0 : list Z :=
  Eval vm_compute in map (fun q => w32 (Z.sqrt (Z.shiftl q 64))) (firstn 8 primes).

(** Padding: a one bit, zeros up to 56 modulo 64, the bit length on 64 bits. *)
Definition pad (msg : list Z) : list Z :=
  let len := Z.of_nat (length msg) in
  let zeros := Z.to_nat ((55 - len) mod 64) in
  msg ++ 128 :: repeat 0 zeros ++ Bytes.bigEndian 8 (8 * len).

Fixpoint words (n : nat) (bs : list Z) : list Z :=
  match n with
  | O => []
  | S n' => Bytes.fromBigEndian (firstn 4 bs) 0 :: words n' (skipn 4 bs)
  end.

(** The message schedule, kept newest first while it is extended. *)
Fixpoint extend (n : nat) (rev_w : list Z) : list Z :=
  match n with
  | O => rev_w
  | S n' =>
      let w := add32 (add32 (sigma1 (nth 1 rev_w 0)) (nth 6 rev_w 0))
                     (add32 (sigma0 (nth 14 rev_w 0)) (nth 15 rev_w 0)) in
      extend n' (w :: rev_w)
  end.

Definition schedule (block : list Z) : list Z :=
  rev (extend 48 (rev (words 16 block))).

Record regs := Regs { ra : Z; rb : Z; rc : Z; rd : Z; re : Z; rf : Z; rg : Z; rh : Z }.

Definition round (r : regs) (kw : Z * Z) : regs :=
  let t1 := add32 (add32 (add32 (rh r) (Sigma1 (re r))) (Ch (re r) (rf r) (rg r)))
                  (add32 (fst kw) (snd kw)) in
  let t2 := add32 (Sigma0 (ra r)) (Maj (ra r) (rb r) (rc r)) in
  Regs (add32 t1 t2) (ra r) (rb r) (rc r) (add32 (rd r) t1) (re r) (rf r) (rg r).

Definition regsOf (h : list Z) : regs :=
  Regs (nth 0 h 0) (nth 1 h 0) (nth 2 h 0) (nth 3 h 0)
       (nth 4 h 0) (nth 5 h 0) (nth 6 h 0) (nth 7 h 0).

Definition compress (h : list Z) (block : list Z) : list Z :=
  let r := fold_left round (combine K (schedule block)) (regsOf h) in
  [ add32 (nth 0 h 0) (ra r); add32 (nth 1 h 0) (rb r);
    add32 (nth 2 h 0) (rc r); add32 (nth 3 h 0) (rd r);
    add32 (nth 4 h 0) (re r); add32 (nth 5 h 0) (rf r);
    add32 (nth 6 h 0) (rg r); add32 (nth 7 h 0) (rh r) ].

Fixpoint blocks (n : nat) (h : list Z) (bs : list Z) : list Z :=
  match n with
  | O => h
  | S n' => blocks n' (compress h (firstn 64 bs)) (skipn 64 bs)
  end.

(** The 32 bytes of the digest. *)
Definition digest (msg : list Z) : list Z :=
  let padded := pad msg in
  flat_map (Bytes.bigEndian 4) (blocks (length padded / 64)%nat H0 padded).

(** HMAC (RFC 2104) with SHA-256, the MAC behind [crypto.subtle.sign]. *)
Definition hmacKey (key : list Z) : list Z :=
  let k := if (64 <? length key)%nat then digest key else key in
  k ++ repeat 0 (64 - length k)%nat.

Definition hmac (key msg : list Z) : list Z :=
  let k := hmacKey key in
  digest (map (Z.lxor 0x5c) k ++ digest (map (Z.lxor 0x36) k ++ msg)).

End Sha256.

(** ** Binary64 numbers

    The integral numbers, the infinities and [NaN]: what integer
    arithmetic on numbers reaches. *)

Module Double.

Inductive t :=
| Finite (z : Z)
| Infinite (negative : bool)
| NaN.

(** The integer nearest to [a], for [a] from [2^53] on, among those that
    53 bits of mantissa hold; of two nearest, the one of even mantissa. *)
Definition nearest (a : Z) : Z :=
  let e := Z.log2 a - 52 in
  let q := Z.shiftr a e in
  let r := a - Z.shiftl q e in
  let half := Z.shiftl 1 (e - 1) in
  let q' := if r <? half then q
            else if half <? r then q + 1
            else if Z.even q then q else q + 1 in
  Z.shiftl q' e.

(** The number value of the integer [z]: [z] below [2^53], its nearest
    binary64 number from there on, an infinity from [2^1024 - 2^970] on. *)
Definition round (z : Z) : t :=
  if Z.abs z <? 2 ^ 53 then Finite z
  else
    let m := nearest (Z.abs z) in
    if m <? 2 ^ 1024 then Finite (Z.sgn z * m) else Infinite (z <? 0).

Definition eqb (x y : t) : bool :=
  match x, y with
  | Finite a, Finite b => a =? b
  | Infinite n, Infinite m => Bool.eqb n m
  | _, _ => false
  end.

(** [- x] *)
Definition opp (x : t) : t :=
  match x with
  | Finite z => Finite (- z)
  | Infinite n => Infinite (negb n)
  | NaN => NaN
  end.

(** [x * y] *)
Definition mul (x y : t) : t :=
  match x, y with
  | Finite a, Finite b => round (a * b)
  | Finite a, Infinite n | Infinite n, Finite a =>
      if a =? 0 then NaN else Infinite (xorb n (a <? 0))
  | Infinite n, Infinite m => Infinite (xorb n m)
  | _, _ => NaN
  end.

(** [x - y] *)
Definition sub (x y : t) : t :=
  match x, y with
  | Finite a, Finite b => round (a - b)
  | Finite _, Infinite n => Infinite (negb n)
  | Infinite n, Finite _ => Infinite n
  | Infinite n, Infinite m => if Bool.eqb n m then NaN else Infinite n
  | _, _ => NaN
  end.

(** [x < y], false as soon as one side is [NaN] *)
Definition ltb (x y : t) : bool :=
  match x, y with
  | Finite a, Finite b => a <? b
  | Finite _, Infinite n => negb n
  | Infinite n, Finite _ => n
  | Infinite n, Infinite m => n && negb m
  | _, _ => false
  end.

End Double.

(** ** JavaScript values

    Request bodies, upstream responses and stored records are JSON; their
    fields reach the code unchecked, so they are modelled as the values
    [JSON.parse] produces, with the conversions the code applies to them. *)

#[local] Unset Elimination Schemes.
Inductive jsval :=
| JUndefined
| JNull
| JBool (b : bool)
| JNumber (n : Z)
| JFraction (decimal : string)
| JString (s : string)
| JArray (elems : list jsval)
| JObject (props : list (string * jsval)).
#[local] Set Elimination Schemes.

(** An exception value: what [error.message] reads. *)
Record JsError := { message : string }.

Inductive Result (A : Type) :=
| Ok (a : A)
| Throw (e : JsError).
Arguments Ok {A} a.
Arguments Throw {A} e.

Definition newError (msg : string) : JsError := {| message := msg |}.

(** What the runtime chooses where the code leaves the choice to it: the
    message of the [DataError] that [crypto.subtle.importKey] throws, and
    what [error.stack] reads from an error that was caught. *)
Record Engine := {
  dataErrorMessage : string;
  stackTrace : JsError -> option string
}.

Module Js.

(** [typeof v] *)
Definition typeof (v : jsval) : string :=
  match v with
  | JUndefined => "undefined"
  | JNull => "object"
  | JBool _ => "boolean"
  | JNumber _ => "number"
  | JFraction _ => "number"
  | JString _ => "string"
  | JArray _ => "object"
  | JObject _ => "object"
  end.

(** Truthiness, as tested by [!v], [v || d] and [if (v)]. *)
Definition toBoolean (v : jsval) : bool :=
  match v with
  | JUndefined => false
  | JNull => false
  | JBool b => b
  | JNumber n => negb (n =? 0)
  | JFraction _ => true
  | JString s => negb (String.eqb s "")
  | JArray _ => true
  | JObject _ => true
  end.

(** [v ?? d] *)
Definition nullish (v d : jsval) : jsval :=
  match v with
  | JUndefined => d
  | JNull => d
  | _ => v
  end.

(** [v || d] *)
Definition orElse (v d : jsval) : jsval := if toBoolean v then v else d.

(** [v !== n] for a number literal [n] *)
Definition notNumber (v : jsval) (n : Z) : bool :=
  match v with
  | JNumber m => negb (m =? n)
  | _ => true
  end.

Definition join (sep : string) (parts : list string) : string :=
  match parts with
  | [] => ""
  | p :: ps => fold_left (fun acc q => acc +:+ sep +:+ q) ps p
  end.

(** [Number::toString] of an integral number.

    From [2^53] on it prints the shortest decimal that reads back as the
    number: its digits, then zeros up to 21 digits in all, and the
    exponent form from [10^21] on. *)
Definition readsBack (x : Z) (decimal : Z * Z) : bool :=
  Double.eqb (Double.round (fst decimal * 10 ^ snd decimal)) (Double.Finite x).

Definition closer (x : Z) (a b : Z * Z) : Z * Z :=
  let da := Z.abs (fst a * 10 ^ snd a - x) in
  let db := Z.abs (fst b * 10 ^ snd b - x) in
  if da <? db then a
  else if db <? da then b
  else if Z.even (fst a) then a else b.

Definition digitCount (x : Z) : Z := Z.of_nat (String.length (pretty x)).

(** The decimals of [k] digits next to [x], below and above, that read
    back as [x]; a decimal is its digits and its power of ten. *)
Definition withDigits (x k : Z) : list (Z * Z) :=
  let e := digitCount x - k in
  let below := x / 10 ^ e in
  let above := if below + 1 <? 10 ^ k then (below + 1, e) else (10 ^ (k - 1), e + 1) in
  List.filter (readsBack x) [(below, e); above].

Fixpoint shortest (fuel : nat) (x k : Z) : Z * Z :=
  match fuel with
  | O => (x, 0)
  | S fuel' =>
      match withDigits x k with
      | [] => shortest fuel' x (k + 1)
      | [a] => a
      | a :: b :: _ => closer x a b
      end
  end.

Definition zeros (n : Z) : string := String.concat "" (repeat "0" (Z.to_nat n)).

Definition numberToString (n : Z) : string :=
  if Z.abs n <? 2 ^ 53 then pretty n
  else
    let (s, e) := shortest 17 (Z.abs n) 1 in
    let digits := pretty s in
    let point := Z.of_nat (String.length digits) + e in
    (if n <? 0 then "-" else "") +:+
    (if point <=? 21 then digits +:+ zeros e
     else
       match digits with
       | String d EmptyString => String d EmptyString
       | String d rest => String d ("." +:+ rest)
       | EmptyString => ""
       end +:+ "e+" +:+ pretty (point - 1)).

(** String conversion, as done by a template literal [`${v}`], where it
    returns; [toStringThrows] tells where it throws instead. *)
Fixpoint toString (v : jsval) : string :=
  match v with
  | JUndefined => "undefined"
  | JNull => "null"
  | JBool true => "true"
  | JBool false => "false"
  | JNumber n => numberToString n
  | JFraction decimal => decimal
  | JString s => s
  | JArray elems =>
      join "," (map (fun e => match e with
                              | JUndefined => ""
                              | JNull => ""
                              | _ => toString e
                              end) elems)
  | JObject _ => "[object Object]"
  end.

(** Whether the string conversion of [v] throws. The values are those of
    [JSON.parse]: an object converts through [Object.prototype.toString]
    unless it has a property [toString] of its own, which is then not
    callable, as its [valueOf] does not give a primitive either; an array
    converts its elements, but for [null] and [undefined]. *)
Fixpoint toStringThrows (v : jsval) : bool :=
  match v with
  | JArray elems =>
      existsb (fun e => match e with
                        | JUndefined => false
                        | JNull => false
                        | _ => toStringThrows e
                        end) elems
  | JObject props => existsb (fun kv => String.eqb (fst kv) "toString") props
  | _ => false
  end.

(** The [TypeError] of such a conversion (the text is the engine's). *)
Definition toPrimitiveError : JsError :=
  newError "Cannot convert object to primitive value".

(** The number texts that JSON does not write. *)
Definition notFinite (decimal : string) : bool :=
  String.eqb decimal "Infinity" || String.eqb decimal "-Infinity" || String.eqb decimal "NaN".

(** The properties that [JSON.stringify] writes, their values written by
    [write]: those whose value is not [undefined]. *)
Definition writtenProps (write : jsval -> jsval)
  : list (string * jsval) -> list (string * jsval) :=
  fix written ps :=
    match ps with
    | [] => []
    | (k, x) :: rest =>
        match x with
        | JUndefined => written rest
        | _ => (k, write x) :: written rest
        end
    end.

(** What [JSON.parse] reads back from the text [JSON.stringify(v)]: a
    number that is not finite is written as [null], so is [undefined] in
    an array, and a property whose value is [undefined] is left out. *)
Fixpoint jsonValue (v : jsval) : jsval :=
  match v with
  | JFraction decimal => if notFinite decimal then JNull else v
  | JArray elems =>
      JArray (map (fun e => match e with
                            | JUndefined => JNull
                            | _ => jsonValue e
                            end) elems)
  | JObject props => JObject (writtenProps jsonValue props)
  | _ => v
  end.

(** The last binding of a name wins, as in [JSON.parse]. *)
Fixpoint lookupProp (name : string) (props : list (string * jsval)) : jsval :=
  match props with
  | [] => JUndefined
  | (k, v) :: rest =>
      match lookupProp name rest with
      | JUndefined => if String.eqb k name then v else JUndefined
      | found => found
      end
  end.

(** [v.name] for a name that no prototype defines; [None] when the access
    throws a [TypeError] (on [null] and [undefined]). *)
Definition getProp (v : jsval) (name : string) : option jsval :=
  match v with
  | JUndefined => None
  | JNull => None
  | JObject props => Some (lookupProp name props)
  | _ => Some JUndefined
  end.

(** [v.length] *)
Definition lengthOf (v : jsval) : jsval :=
  match v with
  | JArray elems => JNumber (Z.of_nat (length elems))
  | JString s => JNumber (Z.of_nat (String.length s))
  | JObject props => lookupProp "length" props
  | _ => JUndefined
  end.

(** [v[0]] on a value that is neither [null] nor [undefined] *)
Definition first (v : jsval) : jsval :=
  match v with
  | JArray elems => nth 0 elems JUndefined
  | JString s => match s with
                 | EmptyString => JUndefined
                 | String c _ => JString (String c EmptyString)
                 end
  | JObject props => lookupProp "0" props
  | _ => JUndefined
  end.

(** The [TypeError] of reading property [name] of [v], which is [null] or
    [undefined] (the text is the engine's). *)
Definition typeError (v : jsval) (name : string) : JsError :=
  newError ("Cannot read properties of " +:+ toString v +:+
            " (reading '" +:+ name +:+ "')").

(** What [JSON.stringify] keeps of an object literal: the properties whose
    value is not [undefined]. *)
Definition object (props : list (string * jsval)) : jsval :=
  JObject (List.filter (fun kv => match snd kv with
                                  | JUndefined => false
                                  | _ => true
                                  end) props).

End Js.

(** ** [types.ts] *)

(** [GatewayRequest]: the six fields read from the parsed body, each
    [JUndefined] when the body does not carry it. *)
Record GatewayRequest := {
  model : jsval;
  prompt : jsval;
  seed : jsval;
  temperature : jsval;
  max_tokens : jsval;
  system_prompt : jsval
}.

(** The declared TypeScript type of a request. *)
Definition isOptional (ty : string) (v : jsval) : bool :=
  match v with
  | JUndefined => true
  | _ => String.eqb (Js.typeof v) ty
  end.

Definition wellTyped (req : GatewayRequest) : bool :=
  String.eqb (Js.typeof (model req)) "string"
  && String.eqb (Js.typeof (prompt req)) "string"
  && String.eqb (Js.typeof (seed req)) "number"
  && isOptional "number" (temperature req)
  && isOptional "number" (max_tokens req)
  && isOptional "string" (system_prompt req).

Record CachedEntry := {
  content : string;
  entry_model : jsval;
  entry_seed : jsval;
  request_hash : string;
  cached_at : Z;
  last_accessed : Z;
  hit_count : Z
}.

Record Message := { role : string; msg_content : jsval }.

Record OpenAIRequest := {
  oa_model : jsval;
  messages : list Message;
  oa_temperature : Z;
  oa_seed : jsval;
  oa_max_tokens : jsval
}.

Record Env := {
  OPENAI_API_KEY : string;
  SIGNING_SECRET : option string;
  CACHE_RETENTION_DAYS : option string
}.

(** ** [utils.ts] *)

Definition keyString (req : GatewayRequest) : string :=
  let temperature := Js.nullish (temperature req) (JNumber 0) in
  let maxTokens := Js.nullish (max_tokens req) (JNumber 150) in
  let systemPrompt := Js.nullish (system_prompt req) (JString "") in
  Js.toString (model req) +:+ ":" +:+ Js.toString (prompt req) +:+ ":" +:+
  Js.toString systemPrompt +:+ ":" +:+ Js.toString temperature +:+ ":" +:+
  Js.toString (seed req) +:+ ":" +:+ Js.toString maxTokens.

Definition generateCacheKey (req : GatewayRequest) : string :=
  Bytes.toHex (Sha256.digest (Bytes.encode (keyString req))).

Arguments generateCacheKey : simpl never.

(** Whether the template literal of [generateCacheKey] throws, so that the
    promise is rejected with [Js.toPrimitiveError] and no key is made. *)
Definition keyStringThrows (req : GatewayRequest) : bool :=
  Js.toStringThrows (model req) || Js.toStringThrows (prompt req)
  || Js.toStringThrows (Js.nullish (system_prompt req) (JString ""))
  || Js.toStringThrows (Js.nullish (temperature req) (JNumber 0))
  || Js.toStringThrows (seed req)
  || Js.toStringThrows (Js.nullish (max_tokens req) (JNumber 150)).

(** [crypto.subtle.importKey('raw', keyData, {name: 'HMAC', ...})]: the Web
    Cryptography API refuses key data of length zero with a [DataError],
    whose message is the engine's. *)
Definition importKey (engine : Engine) (keyData : list Z) : Result (list Z) :=
  match keyData with
  | [] => Throw (newError (dataErrorMessage engine))
  | _ => Ok keyData
  end.

(** [secret] is [None] when the binding is not configured: the value is
    [undefined] and [encoder.encode(undefined)] is the empty array. *)
Definition generateSignature (engine : Engine) (requestHash content : string)
    (secret : option string) : Result string :=
  let keyData := Bytes.encode (default "" secret) in
  match importKey engine keyData with
  | Throw e => Throw e
  | Ok key =>
      let signatureData := Bytes.encode (requestHash +:+ ":" +:+ content) in
      Ok (Bytes.toHex (Sha256.hmac key signatureData))
  end.

Record Validation := { valid : bool; error : option string }.

Definition rejected (msg : string) : Validation := {| valid := false; error := Some msg |}.

Definition validateRequest (req : GatewayRequest) : Validation :=
  if negb (Js.toBoolean (model req)) || negb (String.eqb (Js.typeof (model req)) "string")
  then rejected "Missing or invalid model"
  else if negb (Js.toBoolean (prompt req)) || negb (String.eqb (Js.typeof (prompt req)) "string")
  then rejected "Missing or invalid prompt"
  else if negb (String.eqb (Js.typeof (seed req)) "number")
  then rejected "Missing or invalid seed (must be a number)"
  else
    let temperature := Js.nullish (temperature req) (JNumber 0) in
    if Js.notNumber temperature 0
    then rejected "Temperature must be 0 for deterministic results"
    else {| valid := true; error := None |}.

Definition extractContent (openaiResponse : jsval) : Result string :=
  match Js.getProp openaiResponse "choices" with
  | None => Throw (Js.typeError openaiResponse "choices")
  | Some choices =>
      if negb (Js.toBoolean choices) || negb (Js.notNumber (Js.lengthOf choices) 0)
      then Throw (newError "No choices in OpenAI response")
      else
        match Js.getProp (Js.first choices) "message" with
        | None => Throw (Js.typeError (Js.first choices) "message")
        | Some msg =>
            let content := match Js.getProp msg "content" with
                           | None => JUndefined
                           | Some c => c
                           end in
            match content with
            | JString s => Ok s
            | _ => Throw (newError "Invalid content in OpenAI response")
            end
        end
  end.

(** ** HTTP messages *)

(** The result of [request.json()] / [response.json()]. *)
Inductive JsonBody :=
| Malformed (e : JsError)
| Parsed (v : jsval).

(** A response body: [Json v] stands for the text [JSON.stringify(v)]. *)
Inductive Body :=
| NoBody
| Text (s : string)
| Json (v : jsval).

Record Response := {
  status : Z;
  headers : list (string * string);
  body : Body
}.

Record Request := {
  method : string;
  pathname : string;
  json : JsonBody
}.

Definition jsonHeaders : list (string * string) := [("Content-Type", "application/json")].

(** [response.ok] *)
Definition ok (r : Response) : bool := (200 <=? status r) && (status r <=? 299).

(** The body of a [GatewayError], as serialised. *)
Definition gatewayError (error code : string) (details : option string) : jsval :=
  Js.object [("error", JString error); ("code", JString code);
             ("details", match details with
                         | Some d => JString d
                         | None => JUndefined
                         end)].

(** [error.message || fallback] *)
Definition messageOr (e : JsError) (fallback : string) : string :=
  if String.eqb (message e) "" then fallback else message e.

(** ** [durable-object.ts] *)

(** How the [fetch] to OpenAI settles, with the body already read. *)
Inductive UpstreamOutcome :=
| NetworkError (e : JsError)
| HttpResponse (status : Z) (text : string) (parsed : JsonBody).

Definition openaiRequest (req : GatewayRequest) : OpenAIRequest :=
  let systemPrompt := Js.orElse (system_prompt req) (JString "You are a helpful assistant.") in
  let maxTokens := Js.orElse (max_tokens req) (JNumber 150) in
  {| oa_model := model req;
     messages := [ {| role := "system"; msg_content := systemPrompt |};
                   {| role := "user"; msg_content := prompt req |} ];
     oa_temperature := 0;
     oa_seed := seed req;
     oa_max_tokens := maxTokens |}.

(** The body that [callOpenAI] posts, [JSON.stringify(openaiRequest)], as
    the upstream reads it. *)
Definition openaiBody (r : OpenAIRequest) : jsval :=
  Js.jsonValue
    (JObject [("model", oa_model r);
              ("messages",
               JArray (map (fun m => JObject [("role", JString (role m));
                                              ("content", msg_content m)])
                           (messages r)));
              ("temperature", JNumber (oa_temperature r));
              ("seed", oa_seed r);
              ("max_tokens", oa_max_tokens r)]).

(** [callOpenAI] from the point where its [fetch] has settled. *)
Definition callOpenAI (o : UpstreamOutcome) : Result string :=
  match o with
  | NetworkError e => Throw e
  | HttpResponse st errorText parsed =>
      if negb ((200 <=? st) && (st <=? 299))
      then Throw (newError ("OpenAI API error: " +:+ pretty st +:+ " - " +:+ errorText))
      else match parsed with
           | Malformed e => Throw e
           | Parsed openaiResponse => extractContent openaiResponse
           end
  end.

(** The promise returned by one call of [generateAndCache]. *)
Inductive Generation :=
| Fetching (cacheKey : string) (req : GatewayRequest)
| Storing (entry : CachedEntry)
| Fulfilled (entry : CachedEntry)
| Rejected (e : JsError).

(** Where one invocation of [getOrGenerateResponse] is suspended. *)
Inductive Caller :=
| Entered (req : GatewayRequest)
| Reading (req : GatewayRequest) (cacheKey : string)
| Touching (cached : CachedEntry)
| Joined (pending : nat)
| Initiated (cacheKey : string) (generationPromise : nat)
| Returned (result : Result (CachedEntry * bool)).

Record DurableObject := {
  storage : gmap string CachedEntry;
  pendingRequests : gmap string nat;
  promises : list Generation;
  callers : list Caller;
  upstream : list OpenAIRequest
}.

(** [new AICacheDurableObject(state, env)] over the persisted [store]. *)
Definition construct (store : gmap string CachedEntry) : DurableObject :=
  {| storage := store; pendingRequests := ∅; promises := []; callers := []; upstream := [] |}.

Definition setCaller (i : nat) (c : Caller) (s : DurableObject) : DurableObject :=
  {| storage := storage s; pendingRequests := pendingRequests s;
     promises := promises s; callers := <[i := c]> (callers s); upstream := upstream s |}.

Definition setPromise (p : nat) (g : Generation) (s : DurableObject) : DurableObject :=
  {| storage := storage s; pendingRequests := pendingRequests s;
     promises := <[p := g]> (promises s); callers := callers s; upstream := upstream s |}.

Definition put (key : string) (entry : CachedEntry) (s : DurableObject) : DurableObject :=
  {| storage := <[key := entry]> (storage s); pendingRequests := pendingRequests s;
     promises := promises s; callers := callers s; upstream := upstream s |}.

(** The hit branch up to [await this.state.storage.put(cacheKey, cached)]. *)
Definition touch (now : Z) (cached : CachedEntry) : CachedEntry :=
  {| content := content cached;
     entry_model := entry_model cached;
     entry_seed := entry_seed cached;
     request_hash := request_hash cached;
     cached_at := cached_at cached;
     last_accessed := now;
     hit_count := (if hit_count cached =? 0 then 0 else hit_count cached) + 1 |}.

(** The entry built by [generateAndCache] once [callOpenAI] has returned. *)
Definition newEntry (cacheKey : string) (req : GatewayRequest) (content : string) (now : Z)
  : CachedEntry :=
  {| content := content;
     entry_model := model req;
     entry_seed := seed req;
     request_hash := cacheKey;
     cached_at := now;
     last_accessed := now;
     hit_count := 0 |}.

(** [getOrGenerateResponse] from the resolution of [storage.get] to its
    next [await]: the hit branch, the join branch, or the call of
    [generateAndCache], which runs synchronously into [callOpenAI] up to its
    [fetch] before the promise is registered. *)
Definition afterGet (i : nat) (now : Z) (req : GatewayRequest) (cacheKey : string)
    (s : DurableObject) : DurableObject :=
  match storage s !! cacheKey with
  | Some cached =>
      let cached := touch now cached in
      setCaller i (Touching cached) (put cacheKey cached s)
  | None =>
      match pendingRequests s !! cacheKey with
      | Some pending => setCaller i (Joined pending) s
      | None =>
          let generationPromise := length (promises s) in
          {| storage := storage s;
             pendingRequests := <[cacheKey := generationPromise]> (pendingRequests s);
             promises := promises s ++ [Fetching cacheKey req];
             callers := <[i := Initiated cacheKey generationPromise]> (callers s);
             upstream := openaiRequest req :: upstream s |}
      end
  end.

(** [generateAndCache] from the settlement of the upstream [fetch] to
    [await this.state.storage.put(cacheKey, entry)], or to its rejection. *)
Definition afterUpstream (p : nat) (o : UpstreamOutcome) (now : Z) (cacheKey : string)
    (req : GatewayRequest) (s : DurableObject) : DurableObject :=
  match callOpenAI o with
  | Throw e => setPromise p (Rejected e) s
  | Ok content =>
      let entry := newEntry cacheKey req content now in
      setPromise p (Storing entry) (put cacheKey entry s)
  end.

(** The [finally] block of the initiator. *)
Definition release (cacheKey : string) (s : DurableObject) : DurableObject :=
  {| storage := storage s; pendingRequests := delete cacheKey (pendingRequests s);
     promises := promises s; callers := callers s; upstream := upstream s |}.

(** The events a coordinator instance reacts to; each is one run of
    JavaScript between two [await]s. A call carries a request that the
    worker forwarded, for which [generateCacheKey] returns: the worker
    keeps the requests whose key it cannot derive
    ([Worker.fetch], [keyStringThrows]). *)
Inductive Event :=
| Call (req : GatewayRequest)
| KeyReady (i : nat)
| GetDone (i : nat) (now : Z)
| UpstreamDone (p : nat) (o : UpstreamOutcome) (now : Z)
| PutDone (p : nat)
| Resume (i : nat).

(** One atomic step; [None] when the event cannot occur in the state. *)
Definition step (ev : Event) (s : DurableObject) : option DurableObject :=
  match ev with
  | Call req =>
      Some {| storage := storage s; pendingRequests := pendingRequests s;
              promises := promises s; callers := callers s ++ [Entered req];
              upstream := upstream s |}
  | KeyReady i =>
      match callers s !! i with
      | Some (Entered req) => Some (setCaller i (Reading req (generateCacheKey req)) s)
      | _ => None
      end
  | GetDone i now =>
      match callers s !! i with
      | Some (Reading req cacheKey) => Some (afterGet i now req cacheKey s)
      | _ => None
      end
  | UpstreamDone p o now =>
      match promises s !! p with
      | Some (Fetching cacheKey req) => Some (afterUpstream p o now cacheKey req s)
      | _ => None
      end
  | PutDone p =>
      match promises s !! p with
      | Some (Storing entry) => Some (setPromise p (Fulfilled entry) s)
      | _ => None
      end
  | Resume i =>
      match callers s !! i with
      | Some (Touching cached) => Some (setCaller i (Returned (Ok (cached, true))) s)
      | Some (Joined pending) =>
          match promises s !! pending with
          | Some (Fulfilled result) => Some (setCaller i (Returned (Ok (result, true))) s)
          | Some (Rejected e) => Some (setCaller i (Returned (Throw e)) s)
          | _ => None
          end
      | Some (Initiated cacheKey generationPromise) =>
          match promises s !! generationPromise with
          | Some (Fulfilled result) =>
              Some (release cacheKey (setCaller i (Returned (Ok (result, false))) s))
          | Some (Rejected e) =>
              Some (release cacheKey (setCaller i (Returned (Throw e)) s))
          | _ => None
          end
      | _ => None
      end
  end.

(** A schedule: the events in the order the runtime delivers them. *)
Fixpoint run (evs : list Event) (s : DurableObject) : option DurableObject :=
  match evs with
  | [] => Some s
  | ev :: evs' =>
      match step ev s with
      | Some s' => run evs' s'
      | None => None
      end
  end.

(** [parseInt(text, 10)]: leading white space, an optional sign, then the
    longest run of decimal digits, whose integer is rounded to a number
    (the engine reads every digit, where the language lets an engine read
    the digits after the twentieth as zeros); [NaN] when there is no
    digit. *)
Module ParseInt.

Fixpoint trimStart (bs : list Z) : list Z :=
  match bs with
  | 9 :: r | 10 :: r | 11 :: r | 12 :: r | 13 :: r | 32 :: r => trimStart r
  | 194 :: 160 :: r => trimStart r
  | 225 :: 154 :: 128 :: r => trimStart r
  | 226 :: 128 :: c :: r =>
      if ((128 <=? c) && (c <=? 138)) || (c =? 168) || (c =? 169) || (c =? 175)
      then trimStart r else bs
  | 226 :: 129 :: 159 :: r => trimStart r
  | 227 :: 128 :: 128 :: r => trimStart r
  | 239 :: 187 :: 191 :: r => trimStart r
  | _ => bs
  end.

Fixpoint digits (bs : list Z) (acc : option Z) : option Z :=
  match bs with
  | b :: r =>
      if (48 <=? b) && (b <=? 57)
      then digits r (Some (10 * default 0 acc + (b - 48)))
      else acc
  | [] => acc
  end.

Definition number (digits : option Z) : Double.t :=
  match digits with
  | Some n => Double.round n
  | None => Double.NaN
  end.

Definition parseInt (text : string) : Double.t :=
  match trimStart (Bytes.encode text) with
  | 45 :: r => Double.opp (number (digits r None))
  | 43 :: r => number (digits r None)
  | bs => number (digits bs None)
  end.

End ParseInt.

(** [env.CACHE_RETENTION_DAYS || '90'] *)
Definition retentionText (env : Env) : string :=
  match CACHE_RETENTION_DAYS env with
  | Some text => if String.eqb text "" then "90" else text
  | None => "90"
  end.

Definition retentionDays (env : Env) : Double.t := ParseInt.parseInt (retentionText env).

(** [Date.now() - (retentionDays * 24 * 60 * 60 * 1000)], each operation
    rounding its result. *)
Definition cutoffTime (env : Env) (now : Z) : Double.t :=
  let days := retentionDays env in
  let horizon :=
    Double.mul (Double.mul (Double.mul (Double.mul days (Double.Finite 24))
                                       (Double.Finite 60))
                           (Double.Finite 60))
               (Double.Finite 1000) in
  Double.sub (Double.Finite now) horizon.

(** [entry.cached_at < cutoffTime] *)
Definition expired (cutoff : Double.t) (entry : CachedEntry) : bool :=
  Double.ltb (Double.Finite (cached_at entry)) cutoff.

(** The loop body of [cleanupExpiredEntries] over one listed entry. *)
Definition sweepEntry (cutoff : Double.t) (acc : gmap string CachedEntry * Z)
    (kv : string * CachedEntry) : gmap string CachedEntry * Z :=
  if expired cutoff (snd kv)
  then (delete (fst kv) (fst acc), snd acc + 1)
  else acc.

(** [cleanupExpiredEntries]: the store after the sweep and the count. *)
Definition cleanupExpiredEntries (env : Env) (now : Z) (store : gmap string CachedEntry)
  : gmap string CachedEntry * Z :=
  let cutoff := cutoffTime env now in
  let entries := map_to_list store in
  fold_left (sweepEntry cutoff) entries (store, 0).

(** [{ ...entry, cached }] as serialised by the coordinator. *)
Definition entryJson (entry : CachedEntry) (cached : bool) : jsval :=
  Js.object [("content", JString (content entry));
             ("model", entry_model entry);
             ("seed", entry_seed entry);
             ("request_hash", JString (request_hash entry));
             ("cached_at", JNumber (cached_at entry));
             ("last_accessed", JNumber (last_accessed entry));
             ("hit_count", JNumber (hit_count entry));
             ("cached", JBool cached)].

(** The six fields of a parsed body; the first read throws on [null]. *)
Definition asRequest (firstRead : string) (v : jsval) : Result GatewayRequest :=
  match Js.getProp v firstRead with
  | None => Throw (Js.typeError v firstRead)
  | Some _ =>
      let field name := default JUndefined (Js.getProp v name) in
      Ok {| model := field "model"; prompt := field "prompt"; seed := field "seed";
            temperature := field "temperature"; max_tokens := field "max_tokens";
            system_prompt := field "system_prompt" |}
  end.

Module Coordinator.

(** What [fetch] of the Durable Object does with a request: reply at
    once, or start [getOrGenerateResponse] as a new caller whose result
    is turned into the reply by [generateReply]. *)
Inductive Served :=
| Replied (r : Response) (s : DurableObject)
| Suspended (s : DurableObject).

Definition failure (e : JsError) : Response :=
  {| status := 500; headers := jsonHeaders;
     body := Json (gatewayError (messageOr e "Internal server error")
                                "DURABLE_OBJECT_ERROR" None) |}.

Definition generateReply (result : Result (CachedEntry * bool)) : Response :=
  match result with
  | Ok (entry, cached) =>
      {| status := 200; headers := jsonHeaders; body := Json (entryJson entry cached) |}
  | Throw e => failure e
  end.

Definition fetch (env : Env) (now : Z) (request : Request) (s : DurableObject) : Served :=
  if String.eqb (pathname request) "/health" then
    Replied {| status := 200; headers := jsonHeaders;
               body := Json (Js.object [("status", JString "ok")]) |} s
  else if String.eqb (pathname request) "/generate" && String.eqb (method request) "POST" then
    match json request with
    | Malformed e => Replied (failure e) s
    | Parsed v =>
        match asRequest "temperature" v with
        | Throw e => Replied (failure e) s
        | Ok gatewayReq =>
            Suspended {| storage := storage s; pendingRequests := pendingRequests s;
                         promises := promises s;
                         callers := callers s ++ [Entered gatewayReq];
                         upstream := upstream s |}
        end
    end
  else if String.eqb (pathname request) "/cleanup" && String.eqb (method request) "POST" then
    let (store, deleted) := cleanupExpiredEntries env now (storage s) in
    Replied {| status := 200; headers := jsonHeaders;
               body := Json (Js.object [("deleted", JNumber deleted);
                                        ("status", JString "ok")]) |}
            {| storage := store; pendingRequests := pendingRequests s;
               promises := promises s; callers := callers s; upstream := upstream s |}
  else
    Replied {| status := 404; headers := []; body := Text "Not found" |} s.

End Coordinator.

(** ** The worker entry point *)

Module Worker.

Definition corsHeaders : list (string * string) :=
  [("Access-Control-Allow-Origin", "*");
   ("Access-Control-Allow-Methods", "POST, GET, OPTIONS");
   ("Access-Control-Allow-Headers", "Content-Type")].

(** What the handler does with a request: answer by itself, or derive
    the cache key, forward the request to the Durable Object named by that
    key and turn its response into the answer. The forwarded request
    carries the body that [JSON.stringify] wrote, as the Durable Object
    reads it. *)
Inductive Routed :=
| Answered (r : Response)
| Forwarded (cacheKey : string) (forwarded : Request) (respond : Response -> Response).

Section Handler.

Variable engine : Engine.

(** The [catch] block of the [/generate] branch. *)
Definition workerError (e : JsError) : Response :=
  {| status := 500; headers := jsonHeaders ++ corsHeaders;
     body := Json (gatewayError (messageOr e "Internal server error")
                                "WORKER_ERROR" (stackTrace engine e)) |}.

(** The handler after [stub.fetch] has resolved. *)
Definition respond (env : Env) (doResponse : Response) : Response :=
  if negb (ok doResponse) then
    {| status := status doResponse; headers := jsonHeaders ++ corsHeaders;
       body := body doResponse |}
  else
    match body doResponse with
    | Json cachedEntry =>
        match Js.getProp cachedEntry "request_hash" with
        | None => workerError (Js.typeError cachedEntry "request_hash")
        | Some request_hash =>
            let field name := default JUndefined (Js.getProp cachedEntry name) in
            match generateSignature engine (Js.toString request_hash)
                                    (Js.toString (field "content"))
                                    (SIGNING_SECRET env) with
            | Throw e => workerError e
            | Ok signature =>
                {| status := 200; headers := jsonHeaders ++ corsHeaders;
                   body := Json (Js.object [("content", field "content");
                                            ("model", field "model");
                                            ("seed", field "seed");
                                            ("signature", JString signature);
                                            ("cached", field "cached");
                                            ("request_hash", request_hash)]) |}
            end
        end
    | _ => workerError (newError "Unexpected end of JSON input")
    end.

Definition fetch (request : Request) (env : Env) : Routed :=
  if String.eqb (method request) "OPTIONS" then
    Answered {| status := 200; headers := corsHeaders; body := NoBody |}
  else if String.eqb (pathname request) "/health" && String.eqb (method request) "GET" then
    Answered {| status := 200; headers := jsonHeaders ++ corsHeaders;
                body := Json (Js.object [("status", JString "ok");
                                         ("service", JString "icp-deterministic-ai-gateway");
                                         ("version", JString "1.0.0")]) |}
  else if String.eqb (pathname request) "/generate" && String.eqb (method request) "POST" then
    match json request with
    | Malformed e => Answered (workerError e)
    | Parsed v =>
        match asRequest "model" v with
        | Throw e => Answered (workerError e)
        | Ok gatewayReq =>
            let validation := validateRequest gatewayReq in
            if negb (valid validation) then
              Answered {| status := 400; headers := jsonHeaders ++ corsHeaders;
                          body := Json (gatewayError
                                          (default "Invalid request" (error validation))
                                          "VALIDATION_ERROR" None) |}
            else if keyStringThrows gatewayReq then
              Answered (workerError Js.toPrimitiveError)
            else
              let cacheKey := generateCacheKey gatewayReq in
              Forwarded cacheKey
                        {| method := "POST"; pathname := pathname request;
                           json := Parsed (Js.jsonValue v) |}
                        (respond env)
        end
    end
  else if String.eqb (pathname request) "/cleanup" && String.eqb (method request) "POST" then
    Answered {| status := 200; headers := jsonHeaders ++ corsHeaders;
                body := Json (Js.object
                  [("status", JString "ok");
                   ("message", JString
                      "Cleanup endpoint - implement cron trigger for automatic cleanup")]) |}
  else
    Answered {| status := 404; headers := corsHeaders; body := Text "Not found" |}.

End Handler.

End Worker.

(** ** Notions of the specification *)

(** Default substitution of the optional fields, in the words of the
    specification: an absent [systemPrompt] is the empty string, an absent
    [temperature] is [0], an absent [maxTokens] is [150]. *)
Definition substituteDefaults (req : GatewayRequest) : GatewayRequest :=
  let orDefault v d := match v with JUndefined => d | _ => v end in
  {| model := model req; prompt := prompt req; seed := seed req;
     temperature := orDefault (temperature req) (JNumber 0);
     max_tokens := orDefault (max_tokens req) (JNumber 150);
     system_prompt := orDefault (system_prompt req) (JString "") |}.

(** A non-empty string. *)
Definition nonEmptyString (v : jsval) : Prop := exists s, v = JString s /\ s <> "".

Definition isNumber (v : jsval) : Prop :=
  (exists n, v = JNumber n) \/ (exists decimal, v = JFraction decimal).

(** A field that carries a value: neither [undefined] nor [null], the two
    values [??] replaces. *)
Definition present (v : jsval) : Prop := v <> JUndefined /\ v <> JNull.

(** A request as the coordinator reads it from the body that the worker
    forwarded. *)
Definition forwardedRequest (req : GatewayRequest) : GatewayRequest :=
  {| model := Js.jsonValue (model req); prompt := Js.jsonValue (prompt req);
     seed := Js.jsonValue (seed req); temperature := Js.jsonValue (temperature req);
     max_tokens := Js.jsonValue (max_tokens req);
     system_prompt := Js.jsonValue (system_prompt req) |}.

(** A time that [Date.now()] can return, in milliseconds. *)
Definition timestamp (t : Z) : Prop := 0 <= t < 2 ^ 53.

(** A number that stands for the integer [x] as far as a comparison with
    a time can tell: [x] itself below [2^53] in magnitude, and a number
    beyond [2^53] on the side of [x] otherwise. *)
Definition stands (d : Double.t) (x : Z) : Prop :=
  match d with
  | Double.Finite m =>
      (Z.abs x < 2 ^ 53 /\ m = x) \/ (2 ^ 53 <= x /\ 2 ^ 53 <= m) \/
      (x <= - 2 ^ 53 /\ m <= - 2 ^ 53)
  | Double.Infinite negative => if negative then x <= - 2 ^ 53 else 2 ^ 53 <= x
  | Double.NaN => False
  end.

(** What survives of an entry under a cutoff. *)
Definition kept (cutoff : Double.t) (entry : CachedEntry) : option CachedEntry :=
  if expired cutoff entry then None else Some entry.

(** ** Single flight, as the specification states it *)

(** A caller that was answered with [cached = false] / [cached = true]. *)
Definition fresh (c : Caller) : bool :=
  match c with
  | Returned (Ok (_, false)) => true
  | _ => false
  end.

Definition served (c : Caller) : bool :=
  match c with
  | Returned (Ok (_, true)) => true
  | _ => false
  end.

Definition isCall (ev : Event) : bool :=
  match ev with
  | Call _ => true
  | _ => false
  end.

(** A caller whose call is over. *)
Definition returned (c : Caller) : Prop := exists result, c = Returned result.

(** An event of a run whose calls all carry [req]. *)
Definition carries (req : GatewayRequest) (ev : Event) : Prop :=
  match ev with
  | Call r => r = req
  | _ => True
  end.

(** What the callers of [req] observe at the end: one request went
    upstream, all hold the same content, at most one was answered with
    [cached = false] and the rest with [cached = true]. *)
Definition singleFlight (req : GatewayRequest) (s : DurableObject) : Prop :=
  upstream s = [openaiRequest req] /\
  (exists text,
     Forall (fun c => exists entry cached,
                        c = Returned (Ok (entry, cached)) /\ content entry = text)
            (callers s)) /\
  (length (List.filter fresh (callers s)) <= 1)%nat /\
  length (List.filter served (callers s)) =
    (length (callers s) - length (List.filter fresh (callers s)))%nat.

(** The property stated of a coordinator constructed on [store]: every complete
    run of one or more concurrent calls of a same request is single
    flight. *)
Definition statedSingleFlight (store : gmap string CachedEntry) : Prop :=
  forall req evs s,
    Forall (carries req) evs ->
    run evs (construct store) = Some s ->
    callers s <> [] ->
    Forall returned (callers s) ->
    singleFlight req s.

(** ** The single-flight invariant *)

Section Invariant.

Variable req : GatewayRequest.

(** The events of a run in which every call carries [req] and the
    upstream never fails. *)
Definition admissible (ev : Event) : Prop :=
  match ev with
  | Call r => r = req
  | UpstreamDone _ o _ => exists text, callOpenAI o = Ok text
  | _ => True
  end.

(** The content generated so far, once the upstream has answered. *)
Definition generated (ps : list Generation) : option string :=
  match ps with
  | [g] =>
      match g with
      | Storing entry | Fulfilled entry => Some (content entry)
      | _ => None
      end
  | _ => None
  end.

Definition callerOk (ps : list Generation) (c : Caller) : Prop :=
  match c with
  | Entered r => r = req
  | Reading r k => r = req /\ k = generateCacheKey req
  | Touching cached => generated ps = Some (content cached)
  | Joined pending => pending = 0%nat /\ ps <> []
  | Initiated k p => k = generateCacheKey req /\ p = 0%nat /\ ps <> []
  | Returned (Ok (entry, _)) => generated ps = Some (content entry)
  | Returned (Throw _) => False
  end.

(** Absent, pending or cached: the three states of the fingerprint. *)
Definition phase (s : DurableObject) : Prop :=
  match promises s with
  | [] =>
      storage s !! generateCacheKey req = None /\
      pendingRequests s !! generateCacheKey req = None /\
      upstream s = []
  | [g] =>
      match g with
      | Fetching k r =>
          k = generateCacheKey req /\ r = req /\
          storage s !! generateCacheKey req = None /\
          pendingRequests s !! generateCacheKey req = Some 0%nat /\
          upstream s = [openaiRequest req]
      | Storing entry | Fulfilled entry =>
          (exists stored,
             storage s !! generateCacheKey req = Some stored /\
             content stored = content entry) /\
          upstream s = [openaiRequest req]
      | Rejected _ => False
      end
  | _ => False
  end.

(** The callers that started a generation. *)
Definition initiating (c : Caller) : bool :=
  match c with
  | Initiated _ _ => true
  | Returned (Ok (_, false)) => true
  | _ => false
  end.

Definition invariant (s : DurableObject) : Prop :=
  Forall (callerOk (promises s)) (callers s) /\
  phase s /\
  length (List.filter initiating (callers s)) = length (promises s).

End Invariant.

(** ** Sample requests, stores and schedules *)

(** Two well-typed, valid requests that differ in [prompt] and
    [system_prompt] only by where a colon falls. *)
Definition colonLeft : GatewayRequest :=
  {| model := JString "gpt-4o-mini"; prompt := JString "a:b"; seed := JNumber 1;
     temperature := JUndefined; max_tokens := JUndefined; system_prompt := JString "c" |}.

Definition colonRight : GatewayRequest :=
  {| model := JString "gpt-4o-mini"; prompt := JString "a"; seed := JNumber 1;
     temperature := JUndefined; max_tokens := JUndefined; system_prompt := JString "b:c" |}.

(** A request that leaves every optional field out. *)
Definition bareRequest : GatewayRequest :=
  {| model := JString "m"; prompt := JString "p"; seed := JNumber 12345;
     temperature := JUndefined; max_tokens := JUndefined; system_prompt := JUndefined |}.

(** A request that asks for a temperature other than zero. *)
Definition hotBody : jsval :=
  JObject [("model", JString "gpt-4o-mini"); ("prompt", JString "test");
           ("seed", JNumber 123); ("temperature", JFraction "0.7")].

Definition hotRequest : GatewayRequest :=
  {| model := JString "gpt-4o-mini"; prompt := JString "test"; seed := JNumber 123;
     temperature := JFraction "0.7"; max_tokens := JUndefined;
     system_prompt := JUndefined |}.

(** What the specification states of one [POST /cleanup]: the handler's
    answer is a 200 whose JSON body carries the number of deleted entries
    as [deletedCount] and [status: "ok"]. *)
Definition cleanupAnswer (r : Response) : Prop :=
  status r = 200 /\
  exists v n, body r = Json v /\
    Js.getProp v "deletedCount" = Some (JNumber n) /\
    Js.getProp v "status" = Some (JString "ok").

Definition cleanupRequest : Request :=
  {| method := "POST"; pathname := "/cleanup"; json := Malformed (newError "no body") |}.

(** An engine, for the examples. *)
Definition someEngine : Engine :=
  {| dataErrorMessage := "Zero-length key is not supported";
     stackTrace := fun e => Some ("Error: " +:+ message e) |}.

(** A valid request whose [seed] is [1e999] in the body, read as
    [Infinity]. *)
Definition infiniteSeedBody : jsval :=
  JObject [("model", JString "m"); ("prompt", JString "p");
           ("seed", JFraction "Infinity")].

Definition infiniteSeedRequest : GatewayRequest :=
  {| model := JString "m"; prompt := JString "p"; seed := JFraction "Infinity";
     temperature := JUndefined; max_tokens := JUndefined; system_prompt := JUndefined |}.

(** A valid request whose [system_prompt] is an object that shadows
    [toString]. *)
Definition shadowingBody : jsval :=
  JObject [("model", JString "m"); ("prompt", JString "p"); ("seed", JNumber 1);
           ("system_prompt", JObject [("toString", JNumber 1)])].

Definition someEnv : Env :=
  {| OPENAI_API_KEY := "sk"; SIGNING_SECRET := Some "secret"; CACHE_RETENTION_DAYS := None |}.

Definition upstreamOk (text : string) : UpstreamOutcome :=
  HttpResponse 200 ""
    (Parsed (JObject [("choices",
       JArray [JObject [("message", JObject [("role", JString "assistant");
                                             ("content", JString text)])]])])).

Definition upstreamDown : UpstreamOutcome :=
  HttpResponse 503 "overloaded" (Malformed (newError "Unexpected token")).

(** Three calls for [bareRequest]: the first starts the generation, the
    second joins it, the third finds the entry in the store. *)
Definition threeCalls : list Event :=
  [ Call bareRequest; Call bareRequest; KeyReady 0; GetDone 0 100;
    Call bareRequest; KeyReady 1; KeyReady 2; GetDone 1 101;
    UpstreamDone 0 (upstreamOk "hello") 200; GetDone 2 201; PutDone 0;
    Resume 1; Resume 0; Resume 2 ].

(** Two calls for a fingerprint that is already in the store. *)
Definition cachedCalls : list Event :=
  [ Call bareRequest; Call bareRequest; KeyReady 0; KeyReady 1;
    GetDone 0 500; GetDone 1 501; Resume 0; Resume 1 ].

(** Two overlapping calls: the upstream call of the first fails before the
    second has derived its key. *)
Definition retriedCalls : list Event :=
  [ Call bareRequest; Call bareRequest; KeyReady 0; GetDone 0 100;
    UpstreamDone 0 upstreamDown 200; Resume 0; KeyReady 1; GetDone 1 300;
    UpstreamDone 1 (upstreamOk "hello") 400; PutDone 1; Resume 1 ].

Definition twoReaders : DurableObject :=
  {| storage := ∅; pendingRequests := ∅; promises := [];
     callers := [ Reading bareRequest (generateCacheKey bareRequest);
                  Reading bareRequest (generateCacheKey bareRequest) ];
     upstream := [] |}.

Definition oldEntry (now : Z) (age : Z) : CachedEntry :=
  {| content := "text"; entry_model := JString "m"; entry_seed := JNumber 1;
     request_hash := "h"; cached_at := now - age * (24 * 60 * 60 * 1000);
     last_accessed := now; hit_count := 3 |}.

(** A store with an entry cached 91 days before [sweepTime] and one cached
    the day before. *)
Definition sweepTime : Z := 1700000000000.

Definition sweepStore : gmap string CachedEntry :=
  {[ "old" := oldEntry sweepTime 91; "young" := oldEntry sweepTime 1 ]}.

(** ** Notions for the properties of the whole service *)

(** Coherence of the pending table with the promises and the callers, in
    every state a coordinator reaches. *)
Definition coherent (s : DurableObject) : Prop :=
  (forall p k r, promises s !! p = Some (Fetching k r) ->
     storage s !! k = None /\ pendingRequests s !! k = Some p) /\
  (forall i k g, callers s !! i = Some (Initiated k g) ->
     pendingRequests s !! k = Some g /\ (g < length (promises s))%nat) /\
  (forall k g, pendingRequests s !! k = Some g ->
     exists i, callers s !! i = Some (Initiated k g)) /\
  (forall i i' k k' g, callers s !! i = Some (Initiated k g) ->
     callers s !! i' = Some (Initiated k' g) -> i = i').

(** The fields of an entry that no call may change, and its hit count,
    which only grows. *)
Definition sameEntry (e e' : CachedEntry) : Prop :=
  content e' = content e /\ entry_model e' = entry_model e /\
  entry_seed e' = entry_seed e /\ request_hash e' = request_hash e /\
  cached_at e' = cached_at e /\ hit_count e <= hit_count e'.


(** A generation whose upstream call has returned [entry]. *)
Definition generatedAt (ps : list Generation) (p : nat) (entry : CachedEntry) : Prop :=
  ps !! p = Some (Storing entry) \/ ps !! p = Some (Fulfilled entry).

(** The events [evs] delivered a successful upstream response to
    generation [p], from which [entry] was built. *)
Definition answeredBy (evs : list Event) (p : nat) (entry : CachedEntry) : Prop :=
  exists o now, UpstreamDone p o now ∈ evs /\
                callOpenAI o = Ok (content entry) /\ cached_at entry = now.

(** Where the entries of the store come from, after the events [evs] on a
    coordinator constructed over [store]. *)
Definition provenance (store : gmap string CachedEntry) (evs : list Event)
    (s : DurableObject) : Prop :=
  (forall p entry, generatedAt (promises s) p entry -> answeredBy evs p entry) /\
  (forall k e, storage s !! k = Some e ->
     (exists e0, store !! k = Some e0 /\ sameEntry e0 e) \/
     (exists p entry, generatedAt (promises s) p entry /\
                      request_hash entry = k /\ sameEntry entry e)).


(** A lower-case hexadecimal digit. *)
Definition hexChar (c : ascii) : bool :=
  let n := Z.of_N (N_of_ascii c) in
  ((48 <=? n) && (n <=? 57)) || ((97 <=? n) && (n <=? 102)).

(** [req] with another [max_tokens]. *)
Definition withMaxTokens (v : jsval) (req : GatewayRequest) : GatewayRequest :=
  {| model := model req; prompt := prompt req; seed := seed req;
     temperature := temperature req; max_tokens := v;
     system_prompt := system_prompt req |}.

(** * Properties *)

(** ** Test vectors: FIPS 180-4 and RFC 4231 *)

Example sha256_constants :
  length Sha256.primes = 64%nat /\
  nth 0 Sha256.K 0 = 0x428a2f98 /\ nth 63 Sha256.K 0 = 0xc67178f2 /\
  nth 0 Sha256.H0 0 = 0x6a09e667 /\ nth 7 Sha256.H0 0 = 0x5be0cd19.
Proof. vm_compute. repeat split. Qed.

Example sha256_empty :
  Bytes.toHex (Sha256.digest (Bytes.encode "")) =
  "e3b0c44298fc1c149afbf4c8996fb92427ae41e4649b934ca495991b7852b855".
Proof. vm_compute. reflexivity. Qed.

Example sha256_abc :
  Bytes.toHex (Sha256.digest (Bytes.encode "abc")) =
  "ba7816bf8f01cfea414140de5dae2223b00361a396177a9cb410ff61f20015ad".
Proof. vm_compute. reflexivity. Qed.

Example sha256_two_blocks :
  Bytes.toHex (Sha256.digest
    (Bytes.encode "abcdbcdecdefdefgefghfghighijhijkijkljklmklmnlmnomnopnopq")) =
  "248d6a61d20638b8e5c026930c3e6039a33ce45964ff2167f6ecedd419db06c1".
Proof. vm_compute. reflexivity. Qed.

Example hmac_rfc4231_case2 :
  Bytes.toHex (Sha256.hmac (Bytes.encode "Jefe")
                           (Bytes.encode "what do ya want for nothing?")) =
  "5bdcc146bf60754e6a042426089575c75a003f089d2739839dec58b964ec3843".
Proof. vm_compute. reflexivity. Qed.

(** RFC 4231, test case 6: a key longer than one block is hashed first. *)
Example hmac_rfc4231_case6 :
  Bytes.toHex (Sha256.hmac (repeat 0xaa 131)
    (Bytes.encode "Test Using Larger Than Block-Size Key - Hash Key First")) =
  "60e431591ee0b67f0d8a26aacbf5b77f8e0bc6213728c5140546040f0ee37f54".
Proof. vm_compute. reflexivity. Qed.

Example parseInt_examples :
  ParseInt.parseInt "90" = Double.Finite 90 /\
  ParseInt.parseInt "  30days" = Double.Finite 30 /\
  ParseInt.parseInt "-7" = Double.Finite (-7) /\
  ParseInt.parseInt "days" = Double.NaN /\
  ParseInt.parseInt "9007199254740993" = Double.Finite 9007199254740992.
Proof. vm_compute. repeat split. Qed.

(** Rounding to the nearest number, ties to the even mantissa, and the
    first integer that is read as [Infinity]. *)
Example double_round_examples :
  Double.round (2 ^ 53 + 1) = Double.Finite (2 ^ 53) /\
  Double.round (2 ^ 53 + 3) = Double.Finite (2 ^ 53 + 4) /\
  Double.round (- (2 ^ 53 + 3)) = Double.Finite (- (2 ^ 53 + 4)) /\
  Double.round (10 ^ 23) = Double.Finite 99999999999999991611392 /\
  Double.round (2 ^ 1024 - 2 ^ 970 - 1) = Double.Finite (2 ^ 1024 - 2 ^ 971) /\
  Double.round (2 ^ 1024 - 2 ^ 970) = Double.Infinite false.
Proof. vm_compute. repeat split. Qed.

(** [Number::toString] beyond [2^53]. *)
Example numberToString_examples :
  map Js.numberToString
      [12345; -7; 2 ^ 53; 2 ^ 60; 2 ^ 64; 10 ^ 21; 2 ^ 70;
       99999999999999991611392; 2 ^ 1024 - 2 ^ 971] =
  ["12345"; "-7"; "9007199254740992"; "1152921504606847000"; "18446744073709552000";
   "1e+21"; "1.1805916207174113e+21"; "1e+23"; "1.7976931348623157e+308"].
Proof. vm_compute. reflexivity. Qed.

(** What [JSON.stringify] writes of a request and what converts to a
    string. *)
Example jsonValue_examples :
  Js.jsonValue infiniteSeedBody =
    JObject [("model", JString "m"); ("prompt", JString "p"); ("seed", JNull)] /\
  Js.jsonValue shadowingBody = shadowingBody /\
  Js.toStringThrows (JObject [("toString", JNumber 1)]) = true /\
  Js.toStringThrows (JArray [JNull; JObject []]) = false /\
  Js.toString (JArray [JNull; JObject []; JNumber 2]) = ",[object Object],2".
Proof. vm_compute. repeat split. Qed.

(** ** Strings *)

Lemma append_cancel_l (s a b : string) : s +:+ a = s +:+ b -> a = b.
Proof.
  induction s as [|c s IH]; simpl; intros H; [exact H|].
  injection H as H. exact (IH H).
Qed.

(** ** Fingerprint *)

Section Fingerprint.

Local Lemma nullish_default v d :
  d <> JUndefined -> d <> JNull ->
  Js.nullish (match v with JUndefined => d | _ => v end) d = Js.nullish v d.
Proof. intros Hu Hn. destruct v, d; simpl; congruence. Qed.

(** The pre-hash string only reads a request through its defaults. *)
Lemma keyString_substituteDefaults req :
  keyString (substituteDefaults req) = keyString req.
Proof.
  unfold keyString, substituteDefaults; simpl.
  rewrite !nullish_default by discriminate. reflexivity.
Qed.

(** Requests that agree after default substitution share their key. *)
Lemma generateCacheKey_defaults r1 r2 :
  substituteDefaults r1 = substituteDefaults r2 ->
  generateCacheKey r1 = generateCacheKey r2.
Proof.
  intros H. unfold generateCacheKey.
  rewrite <- (keyString_substituteDefaults r1), <- (keyString_substituteDefaults r2), H.
  reflexivity.
Qed.

End Fingerprint.

(** C2. Fingerprint stability fails on the code: [colonLeft] and
    [colonRight] are well typed, pass validation and differ after default
    substitution, yet the colon-joined pre-hash strings coincide, and so
    do the cache keys. *)
Theorem generateCacheKey_colon_collision :
  wellTyped colonLeft = true /\ wellTyped colonRight = true /\
  valid (validateRequest colonLeft) = true /\ valid (validateRequest colonRight) = true /\
  substituteDefaults colonLeft <> substituteDefaults colonRight /\
  keyString colonLeft = keyString colonRight /\
  generateCacheKey colonLeft = generateCacheKey colonRight.
Proof.
  repeat split; try reflexivity.
  intros H. discriminate H.
Qed.

(** ** What is hashed and what is sent upstream *)

(** C10. For a request whose [system_prompt] is absent or empty,
    [callOpenAI] sends the system message 'You are a helpful assistant.'
    while [generateCacheKey] hashes the empty string in its place: asking
    for that system message explicitly sends the very same upstream
    request but hashes a different string. *)
Theorem system_prompt_default_divergence (req : GatewayRequest) :
  system_prompt req = JUndefined \/ system_prompt req = JString "" ->
  let explicit :=
    {| model := model req; prompt := prompt req; seed := seed req;
       temperature := temperature req; max_tokens := max_tokens req;
       system_prompt := JString "You are a helpful assistant." |} in
  messages (openaiRequest req) =
    [ {| role := "system"; msg_content := JString "You are a helpful assistant." |};
      {| role := "user"; msg_content := prompt req |} ] /\
  keyString req =
    Js.toString (model req) +:+ ":" +:+ Js.toString (prompt req) +:+ ":" +:+
    "" +:+ ":" +:+ Js.toString (Js.nullish (temperature req) (JNumber 0)) +:+ ":" +:+
    Js.toString (seed req) +:+ ":" +:+ Js.toString (Js.nullish (max_tokens req) (JNumber 150)) /\
  openaiRequest explicit = openaiRequest req /\
  keyString explicit <> keyString req.
Proof.
  intros Hsp explicit.
  assert (Hsent : Js.orElse (system_prompt req) (JString "You are a helpful assistant.")
                  = JString "You are a helpful assistant.")
    by (destruct Hsp as [-> | ->]; reflexivity).
  assert (Hhashed : Js.toString (Js.nullish (system_prompt req) (JString "")) = "")
    by (destruct Hsp as [-> | ->]; reflexivity).
  repeat split.
  - unfold openaiRequest; simpl. rewrite Hsent. reflexivity.
  - unfold keyString. rewrite Hhashed. reflexivity.
  - unfold openaiRequest, explicit; simpl. rewrite Hsent. reflexivity.
  - unfold keyString, explicit; simpl. rewrite Hhashed. intros H.
    do 4 apply append_cancel_l in H.
    apply (f_equal (fun s => match s with String c _ => Some c | EmptyString => None end)) in H.
    discriminate H.
Qed.

Lemma system_prompt_default_divergence_witness :
  (system_prompt bareRequest = JUndefined \/ system_prompt bareRequest = JString "") /\
  keyString bareRequest = "m:p::0:12345:150" /\
  map msg_content (messages (openaiRequest bareRequest)) =
    [JString "You are a helpful assistant."; JString "p"].
Proof.
  pose proof (system_prompt_default_divergence bareRequest (or_introl eq_refl)) as H.
  cbv zeta in H. destruct H as (Hsent & Hkey & _ & _).
  split; [left; reflexivity|]. split.
  - rewrite Hkey. reflexivity.
  - rewrite Hsent. reflexivity.
Defined.

(** ** Validation *)

Section Validation.

Lemma nonEmptyString_spec v :
  nonEmptyString v <->
  negb (Js.toBoolean v) || negb (String.eqb (Js.typeof v) "string") = false.
Proof.
  unfold nonEmptyString. split.
  - intros (s & -> & Hs). simpl.
    destruct (String.eqb_spec s ""); [contradiction | reflexivity].
  - destruct v; simpl; try discriminate; try (destruct b; discriminate);
      try (destruct (n =? 0); discriminate).
    destruct (String.eqb_spec s ""); [discriminate|]. eauto.
Qed.

Lemma isNumber_spec v :
  isNumber v <-> negb (String.eqb (Js.typeof v) "number") = false.
Proof.
  unfold isNumber. split.
  - intros [(n & ->) | (decimal & ->)]; reflexivity.
  - destruct v; simpl; try discriminate; eauto.
Qed.

Lemma temperature_spec v :
  (present v /\ v <> JNumber 0) <-> Js.notNumber (Js.nullish v (JNumber 0)) 0 = true.
Proof.
  unfold present. split.
  - intros ((Hu & Hn) & H0). destruct v; simpl; try congruence.
    destruct (Z.eqb_spec n 0); [subst; congruence | reflexivity].
  - destruct v; simpl; try discriminate; intros H; repeat split; try discriminate.
    intros [= ->]. discriminate H.
Qed.

(** The requests [validateRequest] rejects. *)
Lemma validateRequest_rejects req :
  valid (validateRequest req) = false <->
  (~ nonEmptyString (model req) \/ ~ nonEmptyString (prompt req) \/
   ~ isNumber (seed req) \/ (present (temperature req) /\ temperature req <> JNumber 0)).
Proof.
  rewrite !nonEmptyString_spec, isNumber_spec, temperature_spec.
  unfold validateRequest.
  destruct (negb (Js.toBoolean (model req)) || _); simpl.
  { split; [left; discriminate | reflexivity]. }
  destruct (negb (Js.toBoolean (prompt req)) || _); simpl.
  { split; [right; left; discriminate | reflexivity]. }
  destruct (negb (String.eqb (Js.typeof (seed req)) "number")); simpl.
  { split; [right; right; left; discriminate | reflexivity]. }
  destruct (Js.notNumber _ 0); simpl.
  { split; [right; right; right; reflexivity | reflexivity]. }
  split; [discriminate|].
  intros [H | [H | [H | H]]]; try discriminate H; exfalso; apply H; reflexivity.
Qed.

(** A rejection always names its reason. *)
Lemma validateRequest_error req :
  valid (validateRequest req) = false -> exists msg, error (validateRequest req) = Some msg.
Proof.
  unfold validateRequest.
  repeat match goal with
         | |- context [if ?c then _ else _] => destruct c; simpl; eauto
         end.
  discriminate.
Qed.

End Validation.

(** The error cases of the testing guide. *)
Example validateRequest_examples :
  validateRequest bareRequest = {| valid := true; error := None |} /\
  error (validateRequest hotRequest) =
    Some "Temperature must be 0 for deterministic results" /\
  error (validateRequest {| model := JString "gpt-4o-mini"; prompt := JString "test";
                            seed := JUndefined; temperature := JNumber 0;
                            max_tokens := JUndefined; system_prompt := JUndefined |}) =
    Some "Missing or invalid seed (must be a number)" /\
  error (validateRequest {| model := JString "gpt-4o-mini"; prompt := JUndefined;
                            seed := JNumber 123; temperature := JNumber 0;
                            max_tokens := JUndefined; system_prompt := JUndefined |}) =
    Some "Missing or invalid prompt" /\
  valid (validateRequest {| model := JString "m"; prompt := JString "p";
                            seed := JNumber 1; temperature := JNull;
                            max_tokens := JUndefined; system_prompt := JUndefined |}) = true.
Proof. repeat split. Qed.

(** C6. [validateRequest] rejects exactly the requests whose [model] or
    [prompt] is not a non-empty string, whose [seed] is not a number, or
    whose [temperature] carries a value other than [0]; the worker answers
    a rejected [POST /generate] by itself with status 400 and code
    [VALIDATION_ERROR]: no cache key is derived and nothing is forwarded
    to a coordinator, hence nothing is sent upstream. *)
Theorem validation_rejection (req : GatewayRequest) :
  (valid (validateRequest req) = false <->
   (~ nonEmptyString (model req) \/ ~ nonEmptyString (prompt req) \/
    ~ isNumber (seed req) \/ (present (temperature req) /\ temperature req <> JNumber 0))) /\
  (forall engine request env v,
     method request = "POST" -> pathname request = "/generate" ->
     json request = Parsed v -> asRequest "model" v = Ok req ->
     valid (validateRequest req) = false ->
     exists msg,
       error (validateRequest req) = Some msg /\
       Worker.fetch engine request env =
       Worker.Answered
         {| status := 400;
            headers := jsonHeaders ++ Worker.corsHeaders;
            body := Json (JObject [("error", JString msg);
                                   ("code", JString "VALIDATION_ERROR")]) |}).
Proof.
  split; [apply validateRequest_rejects|].
  intros engine request env v Hm Hp Hj Hreq Hrej.
  destruct (validateRequest_error req Hrej) as [msg Hmsg].
  exists msg. split; [exact Hmsg|].
  unfold Worker.fetch. rewrite Hm, Hp, Hj, Hreq. simpl.
  rewrite Hrej, Hmsg. reflexivity.
Qed.

Lemma validation_rejection_witness :
  exists msg,
    error (validateRequest hotRequest) = Some msg /\
    Worker.fetch someEngine
                 {| method := "POST"; pathname := "/generate"; json := Parsed hotBody |}
                 someEnv =
    Worker.Answered
      {| status := 400;
         headers := jsonHeaders ++ Worker.corsHeaders;
         body := Json (JObject [("error", JString msg);
                                ("code", JString "VALIDATION_ERROR")]) |}.
Proof.
  exact (proj2 (validation_rejection hotRequest) someEngine
           {| method := "POST"; pathname := "/generate"; json := Parsed hotBody |}
           someEnv hotBody eq_refl eq_refl eq_refl eq_refl eq_refl).
Defined.

(** ** Signature *)

Section Signature.

Lemma blocks_length n h bs : length h = 8%nat -> length (Sha256.blocks n h bs) = 8%nat.
Proof.
  revert h bs. induction n as [|n IH]; intros h bs Hh; simpl; [exact Hh|].
  apply IH. reflexivity.
Qed.

Lemma digest_length msg : length (Sha256.digest msg) = 32%nat.
Proof.
  unfold Sha256.digest.
  pose proof (blocks_length (length (Sha256.pad msg) / 64) Sha256.H0 (Sha256.pad msg)
                eq_refl) as H.
  destruct (Sha256.blocks _ _ _) as [|a [|b [|c [|d [|e [|f [|g [|h [|]]]]]]]]];
    try discriminate H.
  reflexivity.
Qed.

Lemma toHex_length bs : String.length (Bytes.toHex bs) = (2 * length bs)%nat.
Proof.
  induction bs as [|b bs IH]; [reflexivity|].
  change (Bytes.toHex (b :: bs)) with (Bytes.hexByte b +:+ Bytes.toHex bs).
  unfold Bytes.hexByte.
  change (String.length (String (Bytes.hexDigit (b ≫ 4))
                           (String (Bytes.hexDigit (Z.land b 15)) (Bytes.toHex bs))) =
          (2 * length (b :: bs))%nat).
  simpl. rewrite IH. lia.
Qed.

Lemma encode_nil s : Bytes.encode s = [] <-> s = "".
Proof.
  destruct s; simpl; split; intros H; try reflexivity; discriminate H.
Qed.

End Signature.

(** C8. [generateSignature] is a function of the request hash, the
    content and the secret alone (the engine only words the error); for a
    non-empty secret it succeeds with the 64 hexadecimal digits of the
    HMAC-SHA256, keyed by the secret, of the hash and the content joined
    by a colon; it fails exactly when the secret is absent or empty. *)
Theorem generateSignature_contract (engine : Engine) (requestHash content : string)
    (secret : option string) :
  (forall requestHash' content' secret',
     requestHash = requestHash' -> content = content' -> secret = secret' ->
     generateSignature engine requestHash content secret =
     generateSignature engine requestHash' content' secret') /\
  (forall key, secret = Some key -> key <> "" ->
     exists signature,
       generateSignature engine requestHash content secret = Ok signature /\
       signature = Bytes.toHex (Sha256.hmac (Bytes.encode key)
                                            (Bytes.encode (requestHash +:+ ":" +:+ content))) /\
       String.length signature = 64%nat) /\
  ((exists e, generateSignature engine requestHash content secret = Throw e) <->
   secret = None \/ secret = Some "").
Proof.
  split; [|split].
  - intros ? ? ? -> -> ->. reflexivity.
  - intros key -> Hkey. eexists. split; [|split; [reflexivity|]].
    + unfold generateSignature, importKey. simpl.
      destruct (Bytes.encode key) eqn:Henc; [|reflexivity].
      apply encode_nil in Henc. contradiction.
    + rewrite toHex_length. unfold Sha256.hmac. rewrite digest_length. reflexivity.
  - split.
    + intros [e He]. destruct secret as [key|]; [|left; reflexivity].
      right. unfold generateSignature, importKey in He. simpl in He.
      destruct (Bytes.encode key) eqn:Henc; [|discriminate He].
      apply encode_nil in Henc. subst. reflexivity.
    + intros [-> | ->]; eexists; reflexivity.
Qed.

Lemma generateSignature_contract_witness :
  generateSignature someEngine "abc" "def" (Some "k") =
  Ok "24839d8205f17028febe3132e8385a94961a81d61eb99dbbdf3688af4caccc38".
Proof.
  destruct (proj1 (proj2 (generateSignature_contract someEngine "abc" "def" (Some "k")))
              "k" eq_refl)
    as (signature & Hsig & Hmac & _).
  - discriminate.
  - rewrite Hsig, Hmac. vm_compute. reflexivity.
Defined.

(** ** The cleanup endpoint *)

(** Neither the worker nor the coordinator answers [POST /cleanup] with
    a [deletedCount]. *)
Lemma cleanup_endpoint_counterexample :
  ~ (exists r, Worker.fetch someEngine cleanupRequest someEnv = Worker.Answered r /\
               cleanupAnswer r) /\
  ~ (exists r s, Coordinator.fetch someEnv 0 cleanupRequest (construct ∅) =
                 Coordinator.Replied r s /\ cleanupAnswer r).
Proof.
  split.
  - intros (r & [= <-] & _ & v & n & [= <-] & Hcount & _). discriminate Hcount.
  - intros (r & s & [= <- _] & _ & v & n & [= <-] & Hcount & _). discriminate Hcount.
Qed.

(** C9, as the code has it by design. A [POST /cleanup] to the
    coordinator runs the retention sweep over its store, keeps what the
    sweep leaves, and replies 200 with the number of deleted entries as
    [deleted] and [status: "ok"]; the pending table, the promises, the
    callers and the upstream log are untouched. The [/cleanup] branch of
    the worker, a placeholder that reaches no coordinator, is no part of
    the statement. *)
Theorem cleanup_endpoint (request : Request) (env : Env) (now : Z) (s : DurableObject) :
  method request = "POST" -> pathname request = "/cleanup" ->
  Coordinator.fetch env now request s =
  Coordinator.Replied
    {| status := 200; headers := jsonHeaders;
       body := Json (JObject
         [("deleted", JNumber (snd (cleanupExpiredEntries env now (storage s))));
          ("status", JString "ok")]) |}
    {| storage := fst (cleanupExpiredEntries env now (storage s));
       pendingRequests := pendingRequests s; promises := promises s;
       callers := callers s; upstream := upstream s |}.
Proof.
  intros Hm Hp. unfold Coordinator.fetch. rewrite Hm, Hp. simpl.
  destruct (cleanupExpiredEntries env now (storage s)) as [store deleted].
  reflexivity.
Qed.

Lemma cleanup_endpoint_witness :
  exists r s,
    Coordinator.fetch someEnv sweepTime cleanupRequest (construct sweepStore) =
      Coordinator.Replied r s /\
    status r = 200 /\
    body r = Json (JObject [("deleted", JNumber 1); ("status", JString "ok")]) /\
    storage s = {[ "young" := oldEntry sweepTime 1 ]}.
Proof.
  eexists. eexists.
  split; [exact (cleanup_endpoint cleanupRequest someEnv sweepTime (construct sweepStore)
                   eq_refl eq_refl)|].
  split; [reflexivity|]. split; vm_compute; reflexivity.
Defined.

(** ** Retention sweep *)

Section Retention.

Implicit Types (store m : gmap string CachedEntry) (l : list (string * CachedEntry)).

(** The loop of the sweep, over any listing [l] of entries still in [m]. *)
Lemma sweep_fold cutoff l : forall m n,
  NoDup l.*1 ->
  (forall key entry, (key, entry) ∈ l -> m !! key = Some entry) ->
  let swept := fold_left (sweepEntry cutoff) l (m, n) in
  (forall key, swept.1 !! key =
               if decide (key ∈ l.*1) then m !! key ≫= kept cutoff else m !! key) /\
  swept.2 = n + Z.of_nat (size m) - Z.of_nat (size swept.1).
Proof.
  induction l as [|[k0 e0] l IH]; intros m n Hnodup Hin.
  { simpl. split; [reflexivity | lia]. }
  rewrite fmap_cons in Hnodup |- *. cbn [fst] in Hnodup |- *.
  apply NoDup_cons in Hnodup as [Hfresh Hnodup].
  assert (Hk0 : m !! k0 = Some e0) by (apply Hin; left).
  assert (Htail : forall key entry, (key, entry) ∈ l -> key <> k0).
  { intros key entry Hmem ->. apply Hfresh.
    apply list_elem_of_fmap. exists (k0, entry). split; [reflexivity | exact Hmem]. }
  assert (Hmem : forall key, key <> k0 -> (key ∈ k0 :: l.*1) <-> (key ∈ l.*1)).
  { intros key Hne. rewrite elem_of_cons. tauto. }
  cbn [fold_left].
  replace (sweepEntry cutoff (m, n) (k0, e0))
    with (if expired cutoff e0 then (delete k0 m, n + 1) else (m, n)) by reflexivity.
  destruct (expired cutoff e0) eqn:Hexp; cbv zeta.
  - destruct (IH (delete k0 m) (n + 1) Hnodup) as [Hlook Hcount].
    { intros key entry Hin'. rewrite lookup_delete_ne by (symmetry; eauto).
      apply Hin. right. exact Hin'. }
    split.
    + intros key. rewrite Hlook.
      destruct (decide (key = k0)) as [->|Hne].
      * rewrite (decide_False (P := k0 ∈ l.*1)) by exact Hfresh.
        rewrite lookup_delete_eq, decide_True by left.
        rewrite Hk0. simpl. unfold kept. rewrite Hexp. reflexivity.
      * rewrite lookup_delete_ne by congruence.
        destruct (decide (key ∈ l.*1)) as [Hl|Hl].
        -- rewrite decide_True by (apply Hmem; assumption). reflexivity.
        -- rewrite decide_False by (rewrite Hmem; assumption). reflexivity.
    + rewrite Hcount. rewrite map_size_delete_Some by eauto.
      assert (size m <> 0%nat).
      { intros Hz. apply map_size_empty_inv in Hz. subst.
        rewrite lookup_empty in Hk0. discriminate. }
      lia.
  - destruct (IH m n Hnodup) as [Hlook Hcount].
    { intros key entry Hin'. apply Hin. right. exact Hin'. }
    split; [|exact Hcount].
    intros key. rewrite Hlook.
    destruct (decide (key = k0)) as [->|Hne].
    + rewrite (decide_False (P := k0 ∈ l.*1)) by exact Hfresh.
      rewrite decide_True by left.
      rewrite Hk0. simpl. unfold kept. rewrite Hexp. reflexivity.
    + destruct (decide (key ∈ l.*1)) as [Hl|Hl].
      * rewrite decide_True by (apply Hmem; assumption). reflexivity.
      * rewrite decide_False by (rewrite Hmem; assumption). reflexivity.
Qed.

(** The sweep keeps exactly the entries that are not expired, and counts
    the others. *)
Lemma cleanupExpiredEntries_spec env now store :
  let swept := cleanupExpiredEntries env now store in
  (forall key, swept.1 !! key = store !! key ≫= kept (cutoffTime env now)) /\
  swept.2 = Z.of_nat (size store) - Z.of_nat (size swept.1).
Proof.
  unfold cleanupExpiredEntries.
  destruct (sweep_fold (cutoffTime env now) (map_to_list store) store 0) as [Hlook Hcount].
  { apply NoDup_fst_map_to_list. }
  { intros key entry. apply elem_of_map_to_list. }
  split; [|rewrite Hcount; lia].
  intros key. rewrite Hlook. case_decide as Hk; [reflexivity|].
  destruct (store !! key) as [entry|] eqn:Hkey; [|reflexivity].
  exfalso. apply Hk. apply list_elem_of_fmap. exists (key, entry).
  split; [reflexivity|]. apply elem_of_map_to_list. exact Hkey.
Qed.

End Retention.

(** ** Rounding *)

Section Rounding.

Lemma round_small z : Z.abs z < 2 ^ 53 -> Double.round z = Double.Finite z.
Proof.
  intros H. unfold Double.round.
  destruct (Z.ltb_spec (Z.abs z) (2 ^ 53)); [reflexivity | lia].
Qed.

(** From [2^53] on, rounding stays beyond [2^53]. *)
Lemma nearest_large a : 2 ^ 53 <= a -> 2 ^ 53 <= Double.nearest a.
Proof.
  intros Ha. unfold Double.nearest. cbv zeta.
  assert (Hpos : 0 < a) by (pose proof (Z.pow_pos_nonneg 2 53); lia).
  assert (Hlog : 53 <= Z.log2 a) by (apply Z.log2_le_pow2; [exact Hpos | exact Ha]).
  set (e := Z.log2 a - 52).
  assert (He : 1 <= e) by (unfold e; lia).
  rewrite Z.shiftr_div_pow2 by lia.
  set (q := a / 2 ^ e).
  assert (Hq : 2 ^ 52 <= q).
  { unfold q. apply Z.div_le_lower_bound; [apply Z.pow_pos_nonneg; lia|].
    rewrite <- Z.pow_add_r by lia. replace (e + 52) with (Z.log2 a) by (unfold e; lia).
    apply Z.log2_spec. exact Hpos. }
  match goal with |- _ <= Z.shiftl ?q' e => assert (Hq' : q <= q') end.
  { destruct (_ <? _); [lia|]. destruct (_ <? _); [lia|]. destruct (Z.even q); lia. }
  rewrite Z.shiftl_mul_pow2 by lia.
  assert (H2 : 2 ^ 1 <= 2 ^ e) by (apply Z.pow_le_mono_r; lia).
  change (2 ^ 53) with (2 ^ 52 * 2 ^ 1).
  apply Z.mul_le_mono_nonneg; lia.
Qed.

Lemma round_large z :
  2 ^ 53 <= z ->
  (exists m, Double.round z = Double.Finite m /\ 2 ^ 53 <= m) \/
  Double.round z = Double.Infinite false.
Proof.
  intros Hz. assert (Hp : 0 < 2 ^ 53) by (apply Z.pow_pos_nonneg; lia).
  unfold Double.round. rewrite (Z.abs_eq z) by lia.
  destruct (Z.ltb_spec z (2 ^ 53)); [lia|].
  pose proof (nearest_large z Hz) as Hn.
  destruct (_ <? 2 ^ 1024).
  - left. exists (Double.nearest z). rewrite Z.sgn_pos by lia.
    rewrite Z.mul_1_l. split; [reflexivity | exact Hn].
  - right. destruct (Z.ltb_spec z 0); [lia | reflexivity].
Qed.

Lemma round_large_neg z :
  z <= - 2 ^ 53 ->
  (exists m, Double.round z = Double.Finite m /\ m <= - 2 ^ 53) \/
  Double.round z = Double.Infinite true.
Proof.
  intros Hz. assert (Hp : 0 < 2 ^ 53) by (apply Z.pow_pos_nonneg; lia).
  unfold Double.round. rewrite (Z.abs_neq z) by lia.
  destruct (Z.ltb_spec (- z) (2 ^ 53)); [lia|].
  pose proof (nearest_large (- z) ltac:(lia)) as Hn.
  destruct (_ <? 2 ^ 1024).
  - left. exists (- Double.nearest (- z)). rewrite Z.sgn_neg by lia.
    split; [f_equal; lia | lia].
  - right. destruct (Z.ltb_spec z 0); [reflexivity | lia].
Qed.

Lemma stands_round z : stands (Double.round z) z.
Proof.
  destruct (Z.lt_ge_cases (Z.abs z) (2 ^ 53)) as [Hs|Hl].
  - rewrite round_small by exact Hs. left. split; [exact Hs | reflexivity].
  - destruct (Z.le_ge_cases 0 z) as [Hz|Hz].
    + rewrite Z.abs_eq in Hl by exact Hz.
      destruct (round_large z Hl) as [(m & -> & Hm) | ->]; simpl; auto.
    + rewrite Z.abs_neq in Hl by exact Hz.
      destruct (round_large_neg z ltac:(lia)) as [(m & -> & Hm) | ->]; simpl; [|lia].
      right; right. split; [lia | exact Hm].
Qed.

Lemma stands_finite m : stands (Double.Finite m) m.
Proof.
  unfold stands. assert (Hp : 0 < 2 ^ 53) by (apply Z.pow_pos_nonneg; lia).
  destruct (Z.lt_ge_cases (Z.abs m) (2 ^ 53)) as [Hs|Hl]; [left; auto|].
  destruct (Z.le_ge_cases 0 m) as [Hz|Hz].
  - rewrite Z.abs_eq in Hl by exact Hz. right; left. auto.
  - rewrite Z.abs_neq in Hl by exact Hz. right; right. lia.
Qed.

(** A product by a positive constant stays on its side of [2^53]. *)
Lemma stands_mul d x k :
  stands d x -> 1 <= k -> stands (Double.mul d (Double.Finite k)) (x * k).
Proof.
  intros Hd Hk. assert (Hp : 0 < 2 ^ 53) by (apply Z.pow_pos_nonneg; lia).
  destruct d as [m|negative|]; [| |contradiction].
  - cbn [Double.mul]. destruct Hd as [[Hx ->] | [[Hx Hm] | [Hx Hm]]].
    + apply stands_round.
    + assert (Hxk : 2 ^ 53 <= x * k) by nia.
      assert (Hmk : 2 ^ 53 <= m * k) by nia.
      destruct (round_large (m * k) Hmk) as [(m' & -> & Hm') | ->]; simpl; auto.
    + assert (Hxk : x * k <= - 2 ^ 53) by nia.
      assert (Hmk : m * k <= - 2 ^ 53) by nia.
      destruct (round_large_neg (m * k) Hmk) as [(m' & -> & Hm') | ->]; simpl; auto.
  - cbn [Double.mul]. destruct (Z.eqb_spec k 0); [lia|].
    destruct (Z.ltb_spec k 0); [lia|]. rewrite xorb_false_r.
    destruct negative; simpl in *; nia.
Qed.

(** Against a time, a number compares as the integer it stands for. *)
Lemma ltb_stands a c x :
  timestamp a -> stands c x -> Double.ltb (Double.Finite a) c = (a <? x).
Proof.
  unfold timestamp. intros Ha Hc.
  destruct c as [m|negative|]; [| |contradiction]; cbn [Double.ltb].
  - destruct Hc as [[Hx ->] | [[Hx Hm] | [Hx Hm]]]; [reflexivity| |].
    + destruct (Z.ltb_spec a m), (Z.ltb_spec a x); try reflexivity; lia.
    + destruct (Z.ltb_spec a m), (Z.ltb_spec a x); try reflexivity; lia.
  - destruct negative; simpl in Hc; simpl; destruct (Z.ltb_spec a x); try reflexivity; lia.
Qed.

(** The cutoff compares with a time as [now] minus the horizon does. *)
Lemma sub_stands now h horizon a :
  timestamp now -> timestamp a -> stands h horizon ->
  Double.ltb (Double.Finite a) (Double.sub (Double.Finite now) h) = (a <? now - horizon).
Proof.
  intros Hnow Ha Hh. pose proof Hnow as Hn. pose proof Ha as Ha'.
  unfold timestamp in Hn, Ha'.
  destruct h as [m|negative|]; [| |contradiction]; cbn [Double.sub].
  - destruct Hh as [[Hx ->] | [[Hx Hm] | [Hx Hm]]].
    + apply ltb_stands; [exact Ha | apply stands_round].
    + rewrite (ltb_stands a _ (now - m) Ha (stands_round _)).
      destruct (Z.ltb_spec a (now - m)), (Z.ltb_spec a (now - horizon));
        try reflexivity; lia.
    + rewrite (ltb_stands a _ (now - m) Ha (stands_round _)).
      destruct (Z.ltb_spec a (now - m)), (Z.ltb_spec a (now - horizon));
        try reflexivity; lia.
  - destruct negative; simpl in Hh; simpl;
      destruct (Z.ltb_spec a (now - horizon)); try reflexivity; lia.
Qed.

Lemma expired_spec env now days entry :
  retentionDays env = Double.Finite days ->
  timestamp now -> timestamp (cached_at entry) ->
  expired (cutoffTime env now) entry =
  (cached_at entry <? now - days * 24 * 60 * 60 * 1000).
Proof.
  intros Hdays Hnow Hat. unfold expired, cutoffTime. rewrite Hdays. cbv zeta.
  apply sub_stands; [exact Hnow | exact Hat |].
  repeat (apply stands_mul; [|lia]). apply stands_finite.
Qed.

End Rounding.

(** ** Decimal numerals *)

Section Numerals.

Lemma encode_cons c s :
  Bytes.encode (String c s) = Z.of_N (N_of_ascii c) :: Bytes.encode s.
Proof. reflexivity. Qed.

Lemma digit_cases (d : N) :
  (d < 10)%N ->
  (d = 0 \/ d = 1 \/ d = 2 \/ d = 3 \/ d = 4 \/ d = 5 \/ d = 6 \/ d = 7 \/ d = 8 \/ d = 9)%N.
Proof. lia. Qed.

Lemma pretty_N_char_code d :
  (d < 10)%N -> Z.of_N (N_of_ascii (pretty_N_char d)) = 48 + Z.of_N d.
Proof.
  intros Hd.
  destruct (digit_cases d Hd) as [->|[->|[->|[->|[->|[->|[->|[->|[->| ->]]]]]]]]]; reflexivity.
Qed.

Lemma digits_step c r acc :
  48 <= c <= 57 ->
  ParseInt.digits (c :: r) acc = ParseInt.digits r (Some (10 * default 0 acc + (c - 48))).
Proof.
  intros Hc. cbn [ParseInt.digits].
  replace (48 <=? c) with true by (symmetry; apply Z.leb_le; lia).
  replace (c <=? 57) with true by (symmetry; apply Z.leb_le; lia).
  reflexivity.
Qed.

(** The digits written by [pretty_N_go] are read back by [digits]. *)
Lemma digits_pretty_N_go x : forall s,
  (0 < x)%N ->
  ParseInt.digits (Bytes.encode (pretty_N_go x s)) None =
  ParseInt.digits (Bytes.encode s) (Some (Z.of_N x)).
Proof.
  induction (N.lt_wf_0 x) as [x _ IH]. intros s Hx.
  rewrite pretty_N_go_step by exact Hx.
  assert (Hmod : (x `mod` 10 < 10)%N) by (apply N.mod_lt; lia).
  assert (Hdiv : x = (10 * (x `div` 10) + x `mod` 10)%N) by (apply N.div_mod'; lia).
  assert (Hlt : (x `div` 10 < x)%N) by (apply N.div_lt; lia).
  set (q := (x `div` 10)%N) in *. set (m := (x `mod` 10)%N) in *.
  assert (Hcode : 48 <= Z.of_N (N_of_ascii (pretty_N_char m)) <= 57)
    by (rewrite pretty_N_char_code by exact Hmod; lia).
  destruct (decide (q = 0)%N) as [Hz|Hnz].
  - rewrite Hz, pretty_N_go_0, encode_cons, digits_step by exact Hcode.
    rewrite pretty_N_char_code by exact Hmod. cbn [default id]. do 2 f_equal.
    clearbody q m. lia.
  - rewrite (IH q Hlt) by lia.
    rewrite encode_cons, digits_step by exact Hcode.
    rewrite pretty_N_char_code by exact Hmod. cbn [default id]. do 2 f_equal.
    clearbody q m. lia.
Qed.

Lemma pretty_N_go_head x : forall s,
  (0 < x)%N -> exists d r, (d < 10)%N /\ pretty_N_go x s = String (pretty_N_char d) r.
Proof.
  induction (N.lt_wf_0 x) as [x _ IH]. intros s Hx.
  rewrite pretty_N_go_step by exact Hx.
  destruct (decide (x `div` 10 = 0)%N) as [Hz|Hnz].
  - rewrite Hz, pretty_N_go_0. eexists _, _. split; [|reflexivity]. apply N.mod_lt. lia.
  - apply IH; [apply N.div_lt; lia | apply N.neq_0_lt_0; exact Hnz].
Qed.

Lemma pretty_N_go_app x : forall s t, pretty_N_go x s +:+ t = pretty_N_go x (s +:+ t).
Proof.
  induction (N.lt_wf_0 x) as [x _ IH]. intros s t.
  destruct (decide (x = 0)%N) as [->|Hnz].
  - rewrite !pretty_N_go_0. reflexivity.
  - rewrite (pretty_N_go_step x s), (pretty_N_go_step x (s +:+ t)) by lia.
    rewrite IH by (apply N.div_lt; lia). reflexivity.
Qed.

(** [parseInt] reads an unsigned decimal numeral back, up to the first
    character that is no digit, as the number nearest to it. *)
Lemma parseInt_pretty_N (x : N) (rest : string) :
  ParseInt.digits (Bytes.encode rest) (Some (Z.of_N x)) = Some (Z.of_N x) ->
  ParseInt.parseInt (pretty x +:+ rest) = Double.round (Z.of_N x).
Proof.
  intros Hrest. unfold pretty, pretty_N.
  destruct (decide (x = 0)%N) as [->|Hnz].
  - unfold ParseInt.parseInt.
    change (Bytes.encode ("0" +:+ rest)) with (48 :: Bytes.encode rest).
    cbn [ParseInt.trimStart]. rewrite digits_step by lia.
    change (10 * default 0 None + (48 - 48)) with (Z.of_N 0). rewrite Hrest. reflexivity.
  - rewrite pretty_N_go_app. change ("" +:+ rest) with rest.
    assert (Hx : (0 < x)%N) by lia.
    pose proof (digits_pretty_N_go x rest Hx) as Hdigits.
    destruct (pretty_N_go_head x rest Hx) as (d & r & Hd & Hhead).
    assert (Hparse : ParseInt.parseInt (String (pretty_N_char d) r) =
                     ParseInt.number
                       (ParseInt.digits (Bytes.encode (String (pretty_N_char d) r)) None)).
    { destruct (digit_cases d Hd) as [->|[->|[->|[->|[->|[->|[->|[->|[->| ->]]]]]]]]];
        reflexivity. }
    rewrite Hhead in *. rewrite Hparse, Hdigits, Hrest. reflexivity.
Qed.

(** A retention period written as a decimal numeral, and what may follow
    it. *)
Lemma retentionDays_numeral env (days : N) (rest : string) :
  CACHE_RETENTION_DAYS env = Some (pretty days +:+ rest) ->
  (forall c r, rest = String c r -> (N_of_ascii c < 48 \/ 57 < N_of_ascii c)%N) ->
  retentionDays env = Double.round (Z.of_N days).
Proof.
  intros Henv Hrest. unfold retentionDays, retentionText. rewrite Henv.
  assert (Hne : String.eqb (pretty days +:+ rest) "" = false).
  { unfold pretty, pretty_N. destruct (decide (days = 0)%N) as [->|Hnz]; [reflexivity|].
    destruct (pretty_N_go_head days "" ltac:(lia)) as (d & r & _ & ->). reflexivity. }
  rewrite Hne. apply parseInt_pretty_N.
  destruct rest as [|c r]; [reflexivity|].
  rewrite encode_cons. cbn [ParseInt.digits].
  destruct (Hrest c r eq_refl) as [Hlow|Hhigh].
  - replace (48 <=? Z.of_N (N_of_ascii c)) with false by (symmetry; apply Z.leb_gt; lia).
    reflexivity.
  - replace (Z.of_N (N_of_ascii c) <=? 57) with false by (symmetry; apply Z.leb_gt; lia).
    rewrite andb_false_r. reflexivity.
Qed.

End Numerals.

(** C7. The horizon is what [CACHE_RETENTION_DAYS] says: 90 days when it
    is unset or empty, and, when it is a decimal numeral (followed by
    anything but a digit), the number of days nearest to that numeral.
    For every finite horizon, every time [now] and every store of entries
    cached at times that [Date.now()] returns, the sweep deletes exactly
    the entries whose [cached_at] precedes [now] minus the horizon and
    returns how many entries it removed; under an infinite horizon it
    deletes nothing (everything, when the horizon is negative). So under
    the default an entry cached 91 days ago is removed and one cached a
    day ago stays. *)
Theorem retention_correctness (env : Env) (now : Z) (store : gmap string CachedEntry) :
  timestamp now ->
  (forall key entry, store !! key = Some entry -> timestamp (cached_at entry)) ->
  let swept := cleanupExpiredEntries env now store in
  (CACHE_RETENTION_DAYS env = None \/ CACHE_RETENTION_DAYS env = Some "" ->
   retentionDays env = Double.Finite 90) /\
  (forall (days : N) (rest : string),
     CACHE_RETENTION_DAYS env = Some (pretty days +:+ rest) ->
     (forall c r, rest = String c r -> (N_of_ascii c < 48 \/ 57 < N_of_ascii c)%N) ->
     retentionDays env = Double.round (Z.of_N days)) /\
  (forall days, retentionDays env = Double.Finite days ->
     let horizon := days * 24 * 60 * 60 * 1000 in
     (forall key,
        swept.1 !! key =
        match store !! key with
        | Some entry => if cached_at entry <? now - horizon then None else Some entry
        | None => None
        end) /\
     swept.2 = Z.of_nat (size store) - Z.of_nat (size swept.1)) /\
  (forall negative, retentionDays env = Double.Infinite negative ->
     swept = if negative then (∅, Z.of_nat (size store)) else (store, 0)) /\
  (CACHE_RETENTION_DAYS env = None \/ CACHE_RETENTION_DAYS env = Some "" ->
   forall key entry, store !! key = Some entry ->
     (cached_at entry = now - 91 * (24 * 60 * 60 * 1000) -> swept.1 !! key = None) /\
     (cached_at entry = now - 1 * (24 * 60 * 60 * 1000) -> swept.1 !! key = Some entry)).
Proof.
  intros Hnow Hstore swept.
  assert (Hunset : CACHE_RETENTION_DAYS env = None \/ CACHE_RETENTION_DAYS env = Some "" ->
                   retentionDays env = Double.Finite 90).
  { intros [H | H]; unfold retentionDays, retentionText; rewrite H; reflexivity. }
  destruct (cleanupExpiredEntries_spec env now store) as [Hlook Hcount].
  fold swept in Hlook, Hcount.
  assert (Hdays : forall days, retentionDays env = Double.Finite days ->
            forall key, swept.1 !! key =
              match store !! key with
              | Some entry =>
                  if cached_at entry <? now - days * 24 * 60 * 60 * 1000
                  then None else Some entry
              | None => None
              end).
  { intros days Hd key. rewrite Hlook.
    destruct (store !! key) as [entry|] eqn:Hkey; [|reflexivity].
    simpl. unfold kept.
    rewrite (expired_spec env now days entry Hd Hnow (Hstore key entry Hkey)).
    reflexivity. }
  split; [exact Hunset|]. split; [apply retentionDays_numeral|]. split; [|split].
  - intros days Hd horizon. split; [apply Hdays; exact Hd | exact Hcount].
  - intros negative Hinf.
    assert (Hexp : forall entry, expired (cutoffTime env now) entry = negative).
    { intros entry. unfold expired, cutoffTime. rewrite Hinf. destruct negative; reflexivity. }
    assert (Hswept : swept.1 = if negative then ∅ else store).
    { apply map_eq. intros key. rewrite Hlook.
      destruct (store !! key) as [entry|] eqn:Hkey; simpl.
      - unfold kept. rewrite Hexp.
        destruct negative; [rewrite lookup_empty; reflexivity | symmetry; exact Hkey].
      - destruct negative; [rewrite lookup_empty; reflexivity | symmetry; exact Hkey]. }
    rewrite Hswept in Hcount. destruct swept as [m n]; simpl in *. subst m.
    destruct negative; f_equal; [rewrite map_size_empty in Hcount|]; lia.
  - intros H key entry Hkey. rewrite (Hdays 90 (Hunset H) key), Hkey. split; intros Hat.
    + destruct (Z.ltb_spec (cached_at entry) (now - 90 * 24 * 60 * 60 * 1000));
        [reflexivity | lia].
    + destruct (Z.ltb_spec (cached_at entry) (now - 90 * 24 * 60 * 60 * 1000));
        [lia | reflexivity].
Qed.

(** ** One call of [getOrGenerateResponse] *)

Section OneCall.

Lemma lookup_snoc {A} (l : list A) (x : A) : (l ++ [x])%list !! length l = Some x.
Proof. rewrite lookup_app_r by lia. rewrite Nat.sub_diag. reflexivity. Qed.

Lemma insert_snoc {A} (l : list A) (x y : A) : <[length l := y]> (l ++ [x])%list = (l ++ [y])%list.
Proof.
  rewrite insert_app_r_alt by lia. rewrite Nat.sub_diag. reflexivity.
Qed.

Lemma touch_hit_count now cached : hit_count (touch now cached) = hit_count cached + 1.
Proof. simpl. destruct (Z.eqb_spec (hit_count cached) 0) as [->|]; reflexivity. Qed.

(** A call and the derivation of its key. *)
Lemma run_enter s req :
  run [Call req; KeyReady (length (callers s))] s =
  Some {| storage := storage s; pendingRequests := pendingRequests s;
          promises := promises s;
          callers := callers s ++ [Reading req (generateCacheKey req)];
          upstream := upstream s |}.
Proof.
  simpl. rewrite lookup_snoc. unfold setCaller; simpl. rewrite insert_snoc. reflexivity.
Qed.

Lemma run_app evs1 evs2 s s1 :
  run evs1 s = Some s1 -> run (evs1 ++ evs2)%list s = run evs2 s1.
Proof.
  revert s. induction evs1 as [|ev evs1 IH]; intros s; simpl.
  - intros [= ->]. reflexivity.
  - destruct (step ev s) as [s'|]; [apply IH | discriminate].
Qed.

End OneCall.

(** C4. A call whose fingerprint already has a persisted entry sends
    nothing upstream and starts no generation; it returns the entry with
    [cached = true], and writes it back with [last_accessed] set to the
    current time and [hit_count] incremented by one, the other fields
    untouched. *)
Theorem cache_hit_frame (s : DurableObject) (req : GatewayRequest) (now : Z)
    (cached : CachedEntry) :
  let cacheKey := generateCacheKey req in
  let i := length (callers s) in
  storage s !! cacheKey = Some cached ->
  exists entry s',
    run [Call req; KeyReady i; GetDone i now; Resume i] s = Some s' /\
    callers s' = (callers s ++ [Returned (Ok (entry, true))])%list /\
    upstream s' = upstream s /\
    promises s' = promises s /\
    pendingRequests s' = pendingRequests s /\
    storage s' = <[cacheKey := entry]> (storage s) /\
    last_accessed entry = now /\
    hit_count entry = hit_count cached + 1 /\
    content entry = content cached /\
    entry_model entry = entry_model cached /\
    entry_seed entry = entry_seed cached /\
    request_hash entry = request_hash cached /\
    cached_at entry = cached_at cached.
Proof.
  intros cacheKey i Hhit. subst cacheKey i.
  exists (touch now cached). eexists. split.
  - etransitivity;
      [exact (run_app [Call req; KeyReady _] [GetDone _ now; Resume _] s _ (run_enter s req))|].
    cbn [run step callers]. rewrite lookup_snoc.
    unfold afterGet. cbn [storage]. rewrite Hhit.
    unfold setCaller, put. cbn [callers]. rewrite insert_snoc, lookup_snoc.
    cbn [storage pendingRequests promises upstream callers]. rewrite insert_snoc.
    reflexivity.
  - cbn [callers upstream promises pendingRequests storage].
    repeat split; try reflexivity. apply touch_hit_count.
Qed.

(** C5. A call whose fingerprint has neither a persisted entry nor a
    pending generation becomes the initiator: it registers a pending
    generation and sends one request upstream; when the upstream answers
    with content, the entry built from it has [cached_at] and
    [last_accessed] equal to the current time and [hit_count] zero, is
    persisted under the fingerprint and returned with [cached = false]. *)
Theorem fresh_generation (s : DurableObject) (req : GatewayRequest) (t now : Z)
    (o : UpstreamOutcome) (text : string) :
  let cacheKey := generateCacheKey req in
  let i := length (callers s) in
  let p := length (promises s) in
  storage s !! cacheKey = None ->
  pendingRequests s !! cacheKey = None ->
  callOpenAI o = Ok text ->
  exists s1 s' entry,
    run [Call req; KeyReady i; GetDone i t] s = Some s1 /\
    callers s1 !! i = Some (Initiated cacheKey p) /\
    pendingRequests s1 !! cacheKey = Some p /\
    promises s1 !! p = Some (Fetching cacheKey req) /\
    upstream s1 = openaiRequest req :: upstream s /\
    run [UpstreamDone p o now; PutDone p; Resume i] s1 = Some s' /\
    entry = {| content := text; entry_model := model req; entry_seed := seed req;
               request_hash := cacheKey; cached_at := now; last_accessed := now;
               hit_count := 0 |} /\
    storage s' = <[cacheKey := entry]> (storage s) /\
    callers s' = (callers s ++ [Returned (Ok (entry, false))])%list /\
    promises s' = (promises s ++ [Fulfilled entry])%list /\
    pendingRequests s' = pendingRequests s /\
    upstream s' = openaiRequest req :: upstream s.
Proof.
  intros cacheKey i p Hmiss Hfree Hok. subst cacheKey i p.
  eexists. eexists. eexists. split.
  { etransitivity;
      [exact (run_app [Call req; KeyReady _] [GetDone _ t] s _ (run_enter s req))|].
    cbn [run step callers]. rewrite lookup_snoc.
    unfold afterGet. cbn [storage pendingRequests promises callers upstream].
    rewrite Hmiss, Hfree. rewrite insert_snoc. reflexivity. }
  cbn [callers pendingRequests promises upstream].
  split; [apply lookup_snoc|].
  split; [apply lookup_insert_eq|].
  split; [apply lookup_snoc|].
  split; [reflexivity|].
  split.
  { cbn [run step promises]. rewrite lookup_snoc.
    unfold afterUpstream. rewrite Hok.
    unfold setPromise, put. cbn [storage pendingRequests promises callers upstream].
    rewrite insert_snoc, lookup_snoc.
    cbn [storage pendingRequests promises callers upstream].
    rewrite insert_snoc, lookup_snoc, lookup_snoc.
    unfold release, setCaller. cbn [storage pendingRequests promises callers upstream].
    rewrite insert_snoc. reflexivity. }
  cbn [storage pendingRequests promises callers upstream].
  split; [reflexivity|].
  repeat split; try reflexivity.
  rewrite delete_insert_eq. apply delete_id. exact Hfree.
Qed.

(** ** Failure of the upstream call *)

Section Failure.

(** Whatever the outcome, the initiator leaves through its [finally]. *)
Lemma initiator_releases s c cacheKey g s' :
  callers s !! c = Some (Initiated cacheKey g) ->
  step (Resume c) s = Some s' ->
  pendingRequests s' !! cacheKey = None.
Proof.
  intros Hc. simpl. rewrite Hc.
  destruct (promises s !! g) as [[| |result|e]|]; intros [= <-]; simpl;
    apply lookup_delete_eq.
Qed.

(** A waiter joined on a rejected generation receives its error. *)
Lemma waiter_rejected s j p e :
  promises s !! p = Some (Rejected e) ->
  callers s !! j = Some (Joined p) ->
  exists s',
    step (Resume j) s = Some s' /\
    callers s' !! j = Some (Returned (Throw e)) /\
    storage s' = storage s /\ upstream s' = upstream s.
Proof.
  intros Hp Hj. simpl. rewrite Hj, Hp. eexists. split; [reflexivity|]. simpl.
  split; [|split; reflexivity].
  apply list_lookup_insert_eq. eapply lookup_lt_Some. exact Hj.
Qed.

(** While a generation is pending, an identical request joins it. *)
Lemma waiter_joins s j p req cacheKey t :
  storage s !! cacheKey = None ->
  pendingRequests s !! cacheKey = Some p ->
  callers s !! j = Some (Reading req cacheKey) ->
  exists s',
    step (GetDone j t) s = Some s' /\
    callers s' !! j = Some (Joined p) /\
    storage s' = storage s /\ upstream s' = upstream s.
Proof.
  intros Hs Hp Hj. simpl. rewrite Hj. unfold afterGet. rewrite Hs, Hp.
  eexists. split; [reflexivity|]. simpl.
  split; [|split; reflexivity].
  apply list_lookup_insert_eq. eapply lookup_lt_Some. exact Hj.
Qed.

End Failure.

(** C3. When the upstream call of an initiator fails, the store is left as
    it was, every waiter that joined the generation and the initiator
    receive the error, the initiator removes the pending generation (on
    every way out of its [try]), and the next identical request sends a
    new request upstream. *)
Theorem failure_atomicity (s0 : DurableObject) (req : GatewayRequest) (i k : nat)
    (o : UpstreamOutcome) (e : JsError) (t1 t2 t3 : Z) :
  let cacheKey := generateCacheKey req in
  let p := length (promises s0) in
  storage s0 !! cacheKey = None ->
  pendingRequests s0 !! cacheKey = None ->
  callers s0 !! i = Some (Reading req cacheKey) ->
  callers s0 !! k = Some (Reading req cacheKey) ->
  i <> k ->
  callOpenAI o = Throw e ->
  exists s1 s2 s3 s4,
    step (GetDone i t1) s0 = Some s1 /\
    pendingRequests s1 !! cacheKey = Some p /\
    upstream s1 = openaiRequest req :: upstream s0 /\
    (forall s j t,
       storage s !! cacheKey = None -> pendingRequests s !! cacheKey = Some p ->
       callers s !! j = Some (Reading req cacheKey) ->
       exists s', step (GetDone j t) s = Some s' /\
                  callers s' !! j = Some (Joined p) /\
                  storage s' = storage s /\ upstream s' = upstream s) /\
    step (UpstreamDone p o t2) s1 = Some s2 /\
    storage s2 = storage s0 /\
    promises s2 !! p = Some (Rejected e) /\
    (forall s j,
       promises s !! p = Some (Rejected e) -> callers s !! j = Some (Joined p) ->
       exists s', step (Resume j) s = Some s' /\
                  callers s' !! j = Some (Returned (Throw e)) /\
                  storage s' = storage s /\ upstream s' = upstream s) /\
    step (Resume i) s2 = Some s3 /\
    callers s3 !! i = Some (Returned (Throw e)) /\
    storage s3 = storage s0 /\
    pendingRequests s3 !! cacheKey = None /\
    (forall s c g s',
       callers s !! c = Some (Initiated cacheKey g) -> step (Resume c) s = Some s' ->
       pendingRequests s' !! cacheKey = None) /\
    step (GetDone k t3) s3 = Some s4 /\
    upstream s4 = openaiRequest req :: openaiRequest req :: upstream s0 /\
    pendingRequests s4 !! cacheKey = Some (S p) /\
    promises s4 !! S p = Some (Fetching cacheKey req).
Proof.
  intros cacheKey p Hmiss Hfree Hi Hk Hik Hfail.
  pose proof (lookup_lt_Some _ _ _ Hi) as Hlen.
  assert (Hs1 : step (GetDone i t1) s0 =
                Some {| storage := storage s0;
                        pendingRequests := <[cacheKey := p]> (pendingRequests s0);
                        promises := promises s0 ++ [Fetching cacheKey req];
                        callers := <[i := Initiated cacheKey p]> (callers s0);
                        upstream := openaiRequest req :: upstream s0 |}).
  { simpl. rewrite Hi. unfold afterGet. rewrite Hmiss, Hfree. reflexivity. }
  eexists. eexists. eexists. eexists.
  split; [exact Hs1|]. cbn [pendingRequests upstream].
  split; [apply lookup_insert_eq|].
  split; [reflexivity|].
  split; [intros s j t; apply waiter_joins|].
  split.
  { cbn [step promises]. subst p. rewrite lookup_snoc.
    unfold afterUpstream. rewrite Hfail. unfold setPromise.
    cbn [storage pendingRequests promises callers upstream]. rewrite insert_snoc.
    reflexivity. }
  cbn [storage promises].
  split; [reflexivity|].
  split; [apply lookup_snoc|].
  split; [intros s j; apply waiter_rejected|].
  split.
  { cbn [step callers promises]. rewrite list_lookup_insert_eq by exact Hlen.
    rewrite lookup_snoc. reflexivity. }
  cbn [release setCaller storage pendingRequests promises callers upstream].
  split; [apply list_lookup_insert_eq; rewrite length_insert; exact Hlen|].
  split; [reflexivity|].
  split; [apply lookup_delete_eq|].
  split; [intros s c g s'; apply initiator_releases|].
  split.
  { cbn [step release setCaller callers].
    rewrite !list_lookup_insert_ne by exact Hik. rewrite Hk.
    unfold afterGet, release, setCaller.
    cbn [storage pendingRequests promises callers upstream].
    rewrite Hmiss, lookup_delete_eq. reflexivity. }
  cbn [storage pendingRequests promises callers upstream].
  split; [reflexivity|].
  assert (Hnext : length (promises s0 ++ [Rejected e]) = S p)
    by (rewrite length_app; simpl; lia).
  rewrite Hnext.
  split; [apply lookup_insert_eq|].
  rewrite <- Hnext. apply lookup_snoc.
Qed.

(** ** Single flight *)

Section SingleFlight.

Variable req : GatewayRequest.

Lemma count_insert (f : Caller -> bool) l i x y :
  l !! i = Some x -> f x = f y ->
  length (List.filter f (<[i := y]> l)) = length (List.filter f l).
Proof.
  revert i. induction l as [|c l IH]; intros [|i] Hi Hf; simpl in *; try discriminate.
  - injection Hi as ->. rewrite Hf. destruct (f y); reflexivity.
  - specialize (IH i Hi Hf). destruct (f c); simpl; congruence.
Qed.

Lemma count_insert_gain (f : Caller -> bool) l i x y :
  l !! i = Some x -> f x = false -> f y = true ->
  length (List.filter f (<[i := y]> l)) = S (length (List.filter f l)).
Proof.
  revert i. induction l as [|c l IH]; intros [|i] Hi Hx Hy; simpl in *; try discriminate.
  - injection Hi as ->. rewrite Hx, Hy. reflexivity.
  - specialize (IH i Hi Hx Hy). destruct (f c); simpl; congruence.
Qed.

(** Callers stay in order when a generation starts or progresses. *)
Lemma callerOk_start c g : callerOk req [] c -> callerOk req [g] c.
Proof.
  destruct c as [| | | | |[[entry cached]|e]]; simpl; try tauto; try discriminate.
Qed.

Lemma callerOk_answered c k r entry :
  callerOk req [Fetching k r] c -> callerOk req [Storing entry] c.
Proof.
  destruct c as [| | | | |[[? ?]|?]]; simpl; try tauto; try discriminate.
  - intros [-> _]. split; [reflexivity | discriminate].
  - intros (-> & -> & _). repeat split. discriminate.
Qed.

Lemma callerOk_stored c entry :
  callerOk req [Storing entry] c -> callerOk req [Fulfilled entry] c.
Proof.
  destruct c as [| | | | |[[? ?]|?]]; simpl; try tauto.
  - intros [-> _]. split; [reflexivity | discriminate].
  - intros (-> & -> & _). repeat split. discriminate.
Qed.

Lemma invariant_construct store :
  store !! (generateCacheKey req) = None -> invariant req (construct store).
Proof.
  intros Hstore. unfold invariant, phase; simpl.
  split; [constructor|]. split; [|reflexivity].
  split; [exact Hstore|]. split; [apply lookup_empty | reflexivity].
Qed.

Lemma singleton_lookup {A} (l : list A) p x y :
  l = [x] -> l !! p = Some y -> p = 0%nat /\ y = x.
Proof.
  intros -> H. destruct p as [|p]; simpl in H.
  - injection H as <-. split; reflexivity.
  - apply lookup_nil_Some in H || (destruct p; discriminate H).
Qed.

Ltac singleton Hps Hphase :=
  match type of Hps with
  | promises ?s = _ =>
      unfold phase in Hphase; rewrite Hps in Hphase; cbv beta iota in Hphase
  end.

(** Every admissible step preserves the invariant. *)
Lemma step_invariant ev s s' :
  invariant req s -> admissible req ev -> step ev s = Some s' -> invariant req s'.
Proof.
  intros (Hcallers & Hphase & Hcount) Hadm Hstep.
  destruct ev as [r | i | i now | p o now | p | i]; simpl in Hstep, Hadm.
  - (* Call *)
    injection Hstep as <-. subst r. unfold invariant, phase; simpl.
    split; [apply Forall_app; split; [assumption | repeat constructor]|].
    split; [exact Hphase|].
    rewrite List.filter_app, length_app. simpl. lia.
  - (* KeyReady *)
    destruct (callers s !! i) as [[r| | | | |]|] eqn:Hi; try discriminate.
    injection Hstep as <-.
    pose proof (Forall_lookup_1 _ _ _ _ Hcallers Hi) as Hr. simpl in Hr. subst r.
    unfold invariant, phase; simpl.
    split; [apply Forall_insert; [assumption | split; reflexivity]|].
    split; [exact Hphase|].
    rewrite (count_insert _ _ _ _ _ Hi) by reflexivity. exact Hcount.
  - (* GetDone *)
    destruct (callers s !! i) as [[|r k| | | |]|] eqn:Hi; try discriminate.
    injection Hstep as <-.
    pose proof (Forall_lookup_1 _ _ _ _ Hcallers Hi) as [-> ->].
    unfold afterGet.
    destruct (storage s !! (generateCacheKey req)) as [cached|] eqn:Hst.
    + (* hit *)
      destruct (promises s) as [|g [|]] eqn:Hps; singleton Hps Hphase;
        [destruct Hphase as (H & _); congruence | | contradiction].
      assert (Hgen : generated [g] = Some (content cached) /\
                     upstream s = [openaiRequest req]).
      { destruct g as [k r|entry|entry|e]; try contradiction.
        - destruct Hphase as (_ & _ & H & _). congruence.
        - destruct Hphase as ((stored & Hs & Hc) & Hu). simpl. split; congruence.
        - destruct Hphase as ((stored & Hs & Hc) & Hu). simpl. split; congruence. }
      destruct Hgen as [Hgen Hup].
      unfold invariant, phase; simpl. rewrite Hps.
      split; [apply Forall_insert; [assumption | exact Hgen]|].
      split.
      * destruct g as [k r|entry|entry|e]; try discriminate Hgen;
          (split; [|exact Hup]); exists (touch now cached);
          (split; [apply lookup_insert_eq|]); simpl in Hgen |- *; congruence.
      * rewrite (count_insert _ _ _ _ _ Hi) by reflexivity. exact Hcount.
    + destruct (pendingRequests s !! (generateCacheKey req)) as [pending|] eqn:Hpending.
      * (* join *)
        destruct (promises s) as [|g [|]] eqn:Hps; singleton Hps Hphase;
          [destruct Hphase as (_ & H & _); congruence | | contradiction].
        assert (Hzero : pending = 0%nat).
        { destruct g as [k r|entry|entry|e]; try contradiction.
          - destruct Hphase as (_ & _ & _ & H & _). congruence.
          - destruct Hphase as ((stored & Hs & _) & _). congruence.
          - destruct Hphase as ((stored & Hs & _) & _). congruence. }
        subst pending.
        unfold invariant, phase; simpl. rewrite Hps.
        split; [apply Forall_insert; [assumption | split; [reflexivity | discriminate]]|].
        split; [exact Hphase|].
        rewrite (count_insert _ _ _ _ _ Hi) by reflexivity. exact Hcount.
      * (* initiate *)
        destruct (promises s) as [|g [|]] eqn:Hps; singleton Hps Hphase;
          [ | exfalso | contradiction].
        2:{ destruct g as [k r|entry|entry|e]; try contradiction.
            - destruct Hphase as (_ & _ & _ & H & _). congruence.
            - destruct Hphase as ((stored & Hs & _) & _). congruence.
            - destruct Hphase as ((stored & Hs & _) & _). congruence. }
        destruct Hphase as (_ & _ & Hup).
        unfold invariant, phase; simpl. rewrite Hup.
        split.
        { apply Forall_insert.
          - eapply Forall_impl; [exact Hcallers|]. intros c. apply callerOk_start.
          - repeat split. discriminate. }
        split.
        { repeat split; try assumption. apply lookup_insert_eq. }
        rewrite (count_insert_gain _ _ _ _ _ Hi) by reflexivity.
        rewrite Hcount. reflexivity.
  - (* UpstreamDone *)
    destruct (promises s !! p) as [[k r| | |]|] eqn:Hp; try discriminate.
    injection Hstep as <-.
    destruct (promises s) as [|g [|]] eqn:Hps; singleton Hps Hphase;
      [discriminate Hp | | contradiction].
    destruct (singleton_lookup _ _ _ _ eq_refl Hp) as [-> <-].
    destruct Hphase as (-> & -> & Hst & Hpending & Hup).
    destruct Hadm as [text Htext].
    unfold afterUpstream. rewrite Htext.
    unfold invariant, phase; simpl. rewrite Hps. simpl.
    split.
    { eapply Forall_impl; [exact Hcallers|]. intros c. apply callerOk_answered. }
    split; [|exact Hcount].
    split; [|exact Hup].
    eexists. split; [apply lookup_insert_eq | reflexivity].
  - (* PutDone *)
    destruct (promises s !! p) as [[|entry| |]|] eqn:Hp; try discriminate.
    injection Hstep as <-.
    destruct (promises s) as [|g [|]] eqn:Hps; singleton Hps Hphase;
      [discriminate Hp | | contradiction].
    destruct (singleton_lookup _ _ _ _ eq_refl Hp) as [-> <-].
    unfold invariant, phase; simpl. rewrite Hps. simpl.
    split.
    { eapply Forall_impl; [exact Hcallers|]. intros c. apply callerOk_stored. }
    split; [exact Hphase | exact Hcount].
  - (* Resume *)
    destruct (callers s !! i) as [[| |cached|pending|k g|]|] eqn:Hi; try discriminate.
    + injection Hstep as <-.
      pose proof (Forall_lookup_1 _ _ _ _ Hcallers Hi) as Hc. simpl in Hc.
      unfold invariant, phase; simpl.
      split; [apply Forall_insert; [assumption | exact Hc]|].
      split; [exact Hphase|].
      rewrite (count_insert _ _ _ _ _ Hi) by reflexivity. exact Hcount.
    + pose proof (Forall_lookup_1 _ _ _ _ Hcallers Hi) as [-> _].
      destruct (promises s) as [|g [|]] eqn:Hps; singleton Hps Hphase;
        [discriminate Hstep | | contradiction].
      simpl in Hstep.
      destruct g as [| |result|e]; try discriminate; [|contradiction].
      injection Hstep as <-.
      unfold invariant, phase; simpl. rewrite Hps.
      split; [apply Forall_insert; [assumption | reflexivity]|].
      split; [exact Hphase|].
      rewrite (count_insert _ _ _ _ _ Hi) by reflexivity. exact Hcount.
    + pose proof (Forall_lookup_1 _ _ _ _ Hcallers Hi) as (-> & -> & _).
      destruct (promises s) as [|g' [|]] eqn:Hps; singleton Hps Hphase;
        [discriminate Hstep | | contradiction].
      simpl in Hstep.
      destruct g' as [| |result|e]; try discriminate; [|contradiction].
      injection Hstep as <-.
      unfold invariant, phase; simpl. rewrite Hps.
      split; [apply Forall_insert; [assumption | reflexivity]|].
      split; [exact Hphase|].
      rewrite (count_insert _ _ _ _ _ Hi) by reflexivity. exact Hcount.
Qed.

Lemma run_invariant evs : forall s s',
  invariant req s -> Forall (admissible req) evs -> run evs s = Some s' -> invariant req s'.
Proof.
  induction evs as [|ev evs IH]; intros s s' Hinv Hadm Hrun; simpl in Hrun.
  - injection Hrun as <-. exact Hinv.
  - apply Forall_cons in Hadm as [Hev Hadm].
    destruct (step ev s) as [s1|] eqn:Hstep; [|discriminate].
    eapply IH; [|exact Hadm | exact Hrun].
    eapply step_invariant; eassumption.
Qed.

(** At no point of such a run has more than one request gone upstream. *)
Lemma run_upstream_at_most_once store evs s :
  store !! generateCacheKey req = None ->
  Forall (admissible req) evs ->
  run evs (construct store) = Some s ->
  upstream s = [] \/ upstream s = [openaiRequest req].
Proof.
  intros Hstore Hadm Hrun.
  destruct (run_invariant evs _ _ (invariant_construct store Hstore) Hadm Hrun)
    as (_ & Hphase & _).
  unfold phase in Hphase.
  destruct (promises s) as [|g [|]]; [left; tauto | right | contradiction].
  destruct g; try contradiction; tauto.
Qed.

End SingleFlight.

Section Schedules.

(** Only a call adds a caller. *)
Lemma step_callers ev s s' :
  step ev s = Some s' ->
  length (callers s') = (length (callers s) + if isCall ev then 1 else 0)%nat.
Proof.
  destruct ev as [r | i | i now | p o now | p | i]; simpl.
  - intros [= <-]. simpl. rewrite length_app. reflexivity.
  - destruct (callers s !! i) as [[]|]; intros [= <-]; simpl.
    rewrite length_insert. lia.
  - destruct (callers s !! i) as [[|r k| | | |]|]; intros [= <-].
    unfold afterGet.
    destruct (storage s !! k); [|destruct (pendingRequests s !! k)]; simpl;
      rewrite length_insert; lia.
  - destruct (promises s !! p) as [[]|]; intros [= <-].
    unfold afterUpstream. destruct (callOpenAI o); simpl; lia.
  - destruct (promises s !! p) as [[]|]; intros [= <-]. simpl. lia.
  - destruct (callers s !! i) as [[| | |pending|k g|]|]; try discriminate.
    + intros [= <-]. simpl. rewrite length_insert. lia.
    + destruct (promises s !! pending) as [[]|]; intros [= <-]; simpl;
        rewrite length_insert; lia.
    + destruct (promises s !! g) as [[]|]; intros [= <-]; simpl;
        rewrite length_insert; lia.
Qed.

Lemma run_callers evs : forall s s',
  run evs s = Some s' ->
  length (callers s') = (length (callers s) + length (List.filter isCall evs))%nat.
Proof.
  induction evs as [|ev evs IH]; intros s s' Hrun; simpl in Hrun.
  - injection Hrun as <-. simpl. lia.
  - destruct (step ev s) as [s1|] eqn:Hstep; [|discriminate].
    rewrite (IH _ _ Hrun), (step_callers _ _ _ Hstep). simpl.
    destruct (isCall ev); simpl; lia.
Qed.

Lemma fresh_or_served (l : list Caller) :
  Forall (fun c => exists entry cached, c = Returned (Ok (entry, cached))) l ->
  (length (List.filter fresh l) + length (List.filter served l))%nat = length l.
Proof.
  induction 1 as [|c l (entry & [|] & ->) _ IH]; simpl; lia.
Qed.

Lemma fresh_initiating (l : list Caller) :
  Forall (fun c => exists r, c = Returned r) l ->
  List.filter fresh l = List.filter initiating l.
Proof.
  induction 1 as [|c l (r & ->) _ IH]; simpl; [reflexivity|].
  destruct r as [[entry [|]]|e]; simpl; congruence.
Qed.

End Schedules.

(** Without conditions single flight does not hold. Over a store that
    already has the entry, two calls send nothing upstream; over an empty
    store, when the first upstream call fails before an overlapping call
    has derived its key, two requests go upstream and the two callers end
    with an error and a content. *)
Lemma single_flight_counterexample :
  ~ statedSingleFlight {[ generateCacheKey bareRequest := oldEntry 400 1 ]} /\
  ~ statedSingleFlight ∅.
Proof.
  split; intros Hstated.
  - destruct (run cachedCalls (construct {[ generateCacheKey bareRequest := oldEntry 400 1 ]}))
      as [s|] eqn:Hrun; [|vm_compute in Hrun; discriminate Hrun].
    specialize (Hstated bareRequest cachedCalls s).
    vm_compute in Hrun. injection Hrun as <-.
    destruct Hstated as [Hup _].
    + repeat constructor.
    + vm_compute. reflexivity.
    + discriminate.
    + repeat constructor; eexists; reflexivity.
    + discriminate Hup.
  - destruct (run retriedCalls (construct ∅)) as [s|] eqn:Hrun;
      [|vm_compute in Hrun; discriminate Hrun].
    specialize (Hstated bareRequest retriedCalls s).
    vm_compute in Hrun. injection Hrun as <-.
    destruct Hstated as [Hup _].
    + repeat constructor.
    + vm_compute. reflexivity.
    + discriminate.
    + repeat constructor; eexists; reflexivity.
    + discriminate Hup.
Qed.

(** C1, as the code has it. Let a coordinator start from a store without
    an entry for the fingerprint of [req], and let a schedule deliver any
    number of calls carrying [req], interleaved at will, with an upstream
    that does not fail. Once every caller has returned (and there is at
    least one), exactly one request has been sent upstream, all callers
    hold the same content, exactly one of them was answered with
    [cached = false] and all the others with [cached = true]. *)
Theorem single_flight (store : gmap string CachedEntry) (req : GatewayRequest)
    (evs : list Event) (s : DurableObject) :
  store !! generateCacheKey req = None ->
  Forall (admissible req) evs ->
  run evs (construct store) = Some s ->
  callers s <> [] ->
  Forall returned (callers s) ->
  length (callers s) = length (List.filter isCall evs) /\
  singleFlight req s /\
  length (List.filter fresh (callers s)) = 1%nat.
Proof.
  intros Hstore Hadm Hrun Hsome Hdone.
  pose proof (run_invariant req evs _ _ (invariant_construct req store Hstore) Hadm Hrun)
    as (Hcallers & Hphase & Hcount).
  split; [rewrite (run_callers _ _ _ Hrun); reflexivity|].
  assert (Hall : forall c, c ∈ callers s ->
            exists entry cached, c = Returned (Ok (entry, cached)) /\
                                 generated (promises s) = Some (content entry)).
  { intros c Hc.
    pose proof (proj1 (Forall_forall _ _) Hdone c Hc) as [result ->].
    pose proof (proj1 (Forall_forall _ _) Hcallers _ Hc) as Hok.
    destruct result as [[entry cached]|e]; [|contradiction].
    exists entry, cached. split; [reflexivity | exact Hok]. }
  assert (Hfresh : length (List.filter fresh (callers s)) = length (promises s)).
  { rewrite (fresh_initiating _ Hdone). exact Hcount. }
  unfold singleFlight.
  destruct (callers s) as [|c0 rest] eqn:Hcs; [contradiction|].
  destruct (Hall c0) as (entry0 & cached0 & -> & Hgen0); [left|].
  assert (Hone : length (promises s) = 1%nat /\ upstream s = [openaiRequest req]).
  { unfold phase in Hphase. unfold generated in Hgen0.
    destruct (promises s) as [|g [|]]; try discriminate Hgen0.
    destruct g; try discriminate Hgen0; destruct Hphase as [_ Hup];
      (split; [reflexivity | exact Hup]). }
  destruct Hone as [Hone Hup].
  assert (Hsame : Forall (fun c => exists entry cached,
                     c = Returned (Ok (entry, cached)) /\ content entry = content entry0)
                   (Returned (Ok (entry0, cached0)) :: rest)).
  { apply Forall_forall. intros c Hc.
    destruct (Hall c Hc) as (entry & cached & -> & Hgen).
    exists entry, cached. split; [reflexivity | congruence]. }
  assert (Hsum := fresh_or_served (Returned (Ok (entry0, cached0)) :: rest)).
  rewrite Hfresh, Hone in Hsum |- *.
  split; [|reflexivity].
  split; [exact Hup|].
  split; [exists (content entry0); exact Hsame|].
  split; [lia|].
  rewrite <- Hsum; [lia|].
  eapply Forall_impl; [exact Hsame|].
  intros c (entry & cached & -> & _). eauto.
Qed.

Lemma single_flight_witness :
  exists s,
    run threeCalls (construct ∅) = Some s /\
    length (callers s) = 3%nat /\
    upstream s = [openaiRequest bareRequest] /\
    length (List.filter fresh (callers s)) = 1%nat /\
    length (List.filter served (callers s)) = 2%nat.
Proof.
  destruct (run threeCalls (construct ∅)) as [s|] eqn:Hrun;
    [|vm_compute in Hrun; discriminate Hrun].
  exists s. split; [reflexivity|].
  assert (Hcallers : exists c1 c2 c3, callers s = [Returned c1; Returned c2; Returned c3]).
  { vm_compute in Hrun. injection Hrun as <-. eexists. eexists. eexists. reflexivity. }
  destruct Hcallers as (c1 & c2 & c3 & Hcallers).
  destruct (single_flight ∅ bareRequest threeCalls s)
    as (Hn & (Hup & _ & _ & Hserved) & Hfresh).
  - apply lookup_empty.
  - repeat constructor. exists "hello". reflexivity.
  - exact Hrun.
  - rewrite Hcallers. discriminate.
  - rewrite Hcallers. repeat constructor; eexists; reflexivity.
  - split; [rewrite Hcallers; reflexivity|].
    split; [exact Hup|]. split; [exact Hfresh|].
    rewrite Hserved, Hfresh, Hcallers. reflexivity.
Defined.

Lemma failure_atomicity_witness :
  exists s3 s4,
    run [GetDone 0 100; UpstreamDone 0 upstreamDown 200; Resume 0] twoReaders = Some s3 /\
    storage s3 = ∅ /\
    callers s3 !! 0%nat =
      Some (Returned (Throw (newError "OpenAI API error: 503 - overloaded"))) /\
    step (GetDone 1 300) s3 = Some s4 /\
    upstream s4 = [openaiRequest bareRequest; openaiRequest bareRequest].
Proof.
  destruct (failure_atomicity twoReaders bareRequest 0 1 upstreamDown
              (newError "OpenAI API error: 503 - overloaded") 100 200 300)
    as (s1 & s2 & s3 & s4 & H1 & _ & _ & _ & H2 & _ & _ & _ & H3 & Hc & Hst & _ & _ &
        H4 & Hup & _).
  - apply lookup_empty.
  - apply lookup_empty.
  - reflexivity.
  - reflexivity.
  - discriminate.
  - reflexivity.
  - exists s3, s4. split.
    + change (length (promises twoReaders)) with 0%nat in H2.
      cbn [run]. rewrite H1, H2, H3. reflexivity.
    + repeat split; assumption.
Defined.

Lemma cache_hit_frame_witness :
  exists entry s',
    run [Call bareRequest; KeyReady 0; GetDone 0 500; Resume 0]
        (construct {[ generateCacheKey bareRequest := oldEntry 400 1 ]}) = Some s' /\
    upstream s' = [] /\
    callers s' = [Returned (Ok (entry, true))] /\
    last_accessed entry = 500 /\ hit_count entry = 4 /\ content entry = "text".
Proof.
  destruct (cache_hit_frame
              (construct {[ generateCacheKey bareRequest := oldEntry 400 1 ]})
              bareRequest 500 (oldEntry 400 1))
    as (entry & s' & Hrun & Hcallers & Hup & _ & _ & _ & Hla & Hhc & Hc & _).
  - apply lookup_singleton_eq.
  - exists entry, s'. repeat split; assumption.
Defined.

Lemma fresh_generation_witness :
  exists s' entry,
    run [Call bareRequest; KeyReady 0; GetDone 0 100;
         UpstreamDone 0 (upstreamOk "hello") 200; PutDone 0; Resume 0]
        (construct ∅) = Some s' /\
    callers s' = [Returned (Ok (entry, false))] /\
    storage s' = {[ generateCacheKey bareRequest := entry ]} /\
    content entry = "hello" /\ cached_at entry = 200 /\ last_accessed entry = 200 /\
    hit_count entry = 0.
Proof.
  destruct (fresh_generation (construct ∅) bareRequest 100 200 (upstreamOk "hello") "hello")
    as (s1 & s' & entry & Hrun1 & _ & _ & _ & _ & Hrun2 & -> & Hst & Hcallers & _).
  - apply lookup_empty.
  - apply lookup_empty.
  - reflexivity.
  - eexists s', _. split.
    + exact (eq_trans (run_app [Call bareRequest; KeyReady 0%nat; GetDone 0%nat 100]
                               [UpstreamDone 0%nat (upstreamOk "hello") 200; PutDone 0%nat;
                                Resume 0%nat] _ _ Hrun1) Hrun2).
    + split; [exact Hcallers|]. split; [exact Hst|]. repeat split.
Defined.

Lemma retention_correctness_witness :
  (cleanupExpiredEntries someEnv sweepTime sweepStore).1 !! "old" = None /\
  (cleanupExpiredEntries someEnv sweepTime sweepStore).1 !! "young" =
    Some (oldEntry sweepTime 1) /\
  (cleanupExpiredEntries someEnv sweepTime sweepStore).2 = 1.
Proof.
  destruct (retention_correctness someEnv sweepTime sweepStore)
    as (H90 & _ & Hdays & _ & Hdefault).
  - unfold timestamp. vm_compute. split; [discriminate | reflexivity].
  - intros key entry Hkey. unfold sweepStore in Hkey.
    apply lookup_insert_Some in Hkey as [[_ <-] | [_ Hkey]];
      [|apply lookup_singleton_Some in Hkey as [_ <-]];
      unfold timestamp; vm_compute; (split; [discriminate | reflexivity]).
  - split; [apply (Hdefault (or_introl eq_refl) "old" (oldEntry sweepTime 91)); reflexivity|].
    split; [apply (Hdefault (or_introl eq_refl) "young" (oldEntry sweepTime 1)); reflexivity|].
    destruct (Hdays 90 (H90 (or_introl eq_refl))) as [_ Hcount].
    rewrite Hcount. vm_compute. reflexivity.
Defined.

(** * Further properties of the gateway *)

Section Coherence.

Lemma coherent_construct store : coherent (construct store).
Proof.
  unfold coherent; simpl. repeat split; intros; discriminate.
Qed.

Lemma not_initiated_insert (cs : list Caller) i c j k g :
  (forall k' g', c <> Initiated k' g') ->
  <[i := c]> cs !! j = Some (Initiated k g) -> i <> j /\ cs !! j = Some (Initiated k g).
Proof.
  intros Hc H. apply list_lookup_insert_Some in H as [(-> & Heq & _) | [Hne H]].
  - exfalso. eapply Hc. exact Heq.
  - split; assumption.
Qed.

(** Replacing a caller that is not an initiator by one that is not. *)
Lemma coherent_setCaller s i c c0 :
  coherent s -> callers s !! i = Some c0 ->
  (forall k g, c0 <> Initiated k g) -> (forall k g, c <> Initiated k g) ->
  coherent (setCaller i c s).
Proof.
  intros (Ha & Hb & Hc & Hd) Hi H0 H1. unfold coherent; simpl.
  split; [exact Ha|]. split; [|split].
  - intros j k g Hj. apply not_initiated_insert in Hj as [_ Hj]; [|exact H1]. eauto.
  - intros k g Hk. destruct (Hc k g Hk) as [j Hj]. exists j.
    rewrite list_lookup_insert_ne; [exact Hj|]. intros ->. rewrite Hi in Hj.
    injection Hj as ->. eapply H0. reflexivity.
  - intros j j' k k' g Hj Hj'.
    apply not_initiated_insert in Hj as [_ Hj]; [|exact H1].
    apply not_initiated_insert in Hj' as [_ Hj']; [|exact H1]. eauto.
Qed.

Lemma step_coherent ev s s' : coherent s -> step ev s = Some s' -> coherent s'.
Proof.
  intros Hco Hstep.
  destruct ev as [r | i | i now | p o now | p | i]; simpl in Hstep.
  - (* Call *)
    injection Hstep as <-. destruct Hco as (Ha & Hb & Hc & Hd).
    unfold coherent; simpl. split; [exact Ha|]. split; [|split].
    + intros j k g Hj. apply lookup_snoc_Some in Hj as [[_ Hj] | [_ Hj]];
        [eauto | discriminate].
    + intros k g Hk. destruct (Hc k g Hk) as [j Hj]. exists j.
      apply lookup_app_l_Some. exact Hj.
    + intros j j' k k' g Hj Hj'.
      apply lookup_snoc_Some in Hj as [[_ Hj] | [_ Hj]]; [|discriminate].
      apply lookup_snoc_Some in Hj' as [[_ Hj'] | [_ Hj']]; [|discriminate]. eauto.
  - (* KeyReady *)
    destruct (callers s !! i) as [[r| | | | |]|] eqn:Hi; try discriminate.
    injection Hstep as <-. eapply coherent_setCaller; eauto; discriminate.
  - (* GetDone *)
    destruct (callers s !! i) as [[|r k| | | |]|] eqn:Hi; try discriminate.
    injection Hstep as <-. unfold afterGet.
    destruct (storage s !! k) as [cached|] eqn:Hst.
    + (* hit *)
      assert (Hco' : coherent (put k (touch now cached) s)).
      { destruct Hco as (Ha & Hb & Hc & Hd). unfold coherent; simpl.
        split; [|auto]. intros p k' r' Hp. destruct (Ha p k' r' Hp) as [Hs Hpe].
        split; [|exact Hpe]. rewrite lookup_insert_ne; [exact Hs|]. congruence. }
      eapply coherent_setCaller; eauto; discriminate.
    + destruct (pendingRequests s !! k) as [pending|] eqn:Hpending.
      * eapply coherent_setCaller; eauto; discriminate.
      * (* initiate *)
        destruct Hco as (Ha & Hb & Hc & Hd). unfold coherent; simpl.
        split; [|split; [|split]].
        -- intros p k' r' Hp.
           apply lookup_snoc_Some in Hp as [[_ Hp] | [-> Heq]].
           ++ destruct (Ha p k' r' Hp) as [Hs Hpe]. split; [exact Hs|].
              rewrite lookup_insert_ne; [exact Hpe|]. congruence.
           ++ injection Heq as <- <-. split; [exact Hst | apply lookup_insert_eq].
        -- intros j k' g Hj. rewrite length_app. simpl.
           apply list_lookup_insert_Some in Hj as [(-> & Heq & _) | [Hne Hj]].
           ++ injection Heq as <- <-. split; [apply lookup_insert_eq | lia].
           ++ destruct (Hb j k' g Hj) as [Hpe Hlt]. split; [|lia].
              rewrite lookup_insert_ne; [exact Hpe|]. congruence.
        -- intros k' g Hk.
           destruct (decide (k = k')) as [<-|Hne].
           ++ rewrite lookup_insert_eq in Hk. injection Hk as <-. exists i.
              apply list_lookup_insert_eq. eapply lookup_lt_Some. exact Hi.
           ++ rewrite lookup_insert_ne in Hk by exact Hne.
              destruct (Hc k' g Hk) as [j Hj]. exists j.
              rewrite list_lookup_insert_ne; [exact Hj|]. intros ->.
              rewrite Hi in Hj. discriminate.
        -- intros j j' k1 k2 g Hj Hj'.
           apply list_lookup_insert_Some in Hj as [(-> & Heq & _) | [Hne Hj]];
             apply list_lookup_insert_Some in Hj' as [(-> & Heq' & _) | [Hne' Hj']];
             try reflexivity.
           ++ injection Heq as <- <-. destruct (Hb _ _ _ Hj') as [_ Hlt]. lia.
           ++ injection Heq' as <- <-. destruct (Hb _ _ _ Hj) as [_ Hlt]. lia.
           ++ eauto.
  - (* UpstreamDone *)
    destruct (promises s !! p) as [[k r| | |]|] eqn:Hp; try discriminate.
    injection Hstep as <-. destruct Hco as (Ha & Hb & Hc & Hd).
    unfold afterUpstream.
    assert (Hother : forall g p' k' r', <[p := g]> (promises s) !! p' = Some (Fetching k' r') ->
              (forall k0 r0, g <> Fetching k0 r0) ->
              p' <> p /\ promises s !! p' = Some (Fetching k' r') /\ k' <> k).
    { intros g p' k' r' Hp' Hg.
      apply list_lookup_insert_Some in Hp' as [(-> & Heq & _) | [Hne Hp']].
      - exfalso. eapply Hg. exact Heq.
      - split; [congruence|]. split; [exact Hp'|]. intros ->.
        destruct (Ha _ _ _ Hp) as [_ H1]. destruct (Ha _ _ _ Hp') as [_ H2]. congruence. }
    destruct (callOpenAI o) as [text|e]; unfold coherent; simpl; rewrite length_insert.
    + split; [|auto]. intros p' k' r' Hp'.
      destruct (Hother _ _ _ _ Hp') as (_ & Hp0 & Hne); [discriminate|].
      destruct (Ha _ _ _ Hp0) as [Hs Hpe]. split; [|exact Hpe].
      rewrite lookup_insert_ne; [exact Hs|]. congruence.
    + split; [|auto]. intros p' k' r' Hp'.
      destruct (Hother _ _ _ _ Hp') as (_ & Hp0 & Hne); [discriminate|]. eauto.
  - (* PutDone *)
    destruct (promises s !! p) as [[|entry| |]|] eqn:Hp; try discriminate.
    injection Hstep as <-. destruct Hco as (Ha & Hb & Hc & Hd).
    unfold coherent; simpl; rewrite length_insert. split; [|auto].
    intros p' k' r' Hp'.
    apply list_lookup_insert_Some in Hp' as [(-> & Heq & _) | [Hne Hp']];
      [discriminate Heq | eauto].
  - (* Resume *)
    destruct (callers s !! i) as [[| |cached|pending|k g|]|] eqn:Hi; try discriminate.
    + injection Hstep as <-. eapply coherent_setCaller; eauto; discriminate.
    + destruct (promises s !! pending) as [[| |result|e]|]; try discriminate;
        injection Hstep as <-; eapply coherent_setCaller; eauto; discriminate.
    + assert (Hrel : forall c, (forall k' g', c <> Initiated k' g') ->
                match promises s !! g with
                | Some (Fulfilled _) | Some (Rejected _) => True
                | _ => False
                end ->
                coherent (release k (setCaller i c s))).
      { intros c Hc0 Hsettled. destruct Hco as (Ha & Hb & Hc & Hd).
        destruct (Hb _ _ _ Hi) as [Hkg _].
        unfold coherent; simpl. split; [|split; [|split]].
        - intros p k' r' Hp. destruct (Ha _ _ _ Hp) as [Hs Hpe]. split; [exact Hs|].
          rewrite lookup_delete_ne; [exact Hpe|]. intros <-.
          assert (p = g) by congruence. subst p. rewrite Hp in Hsettled. exact Hsettled.
        - intros j k' g' Hj. apply not_initiated_insert in Hj as [Hne Hj]; [|exact Hc0].
          destruct (Hb _ _ _ Hj) as [Hpe Hlt]. split; [|exact Hlt].
          rewrite lookup_delete_ne; [exact Hpe|]. intros <-.
          assert (g' = g) by congruence. subst g'. apply Hne. eapply Hd; eauto.
        - intros k' g' Hk.
          destruct (decide (k = k')) as [<-|Hne]; [rewrite lookup_delete_eq in Hk; discriminate|].
          rewrite lookup_delete_ne in Hk by exact Hne.
          destruct (Hc _ _ Hk) as [j Hj]. exists j.
          rewrite list_lookup_insert_ne; [exact Hj|]. intros ->.
          rewrite Hi in Hj. congruence.
        - intros j j' k1 k2 g' Hj Hj'.
          apply not_initiated_insert in Hj as [_ Hj]; [|exact Hc0].
          apply not_initiated_insert in Hj' as [_ Hj']; [|exact Hc0]. eauto. }
      destruct (promises s !! g) as [[| |result|e]|] eqn:Hg; try discriminate;
        injection Hstep as <-; apply Hrel; try discriminate; exact I.
Qed.

Lemma run_coherent evs : forall s s', coherent s -> run evs s = Some s' -> coherent s'.
Proof.
  induction evs as [|ev evs IH]; intros s s' Hco Hrun; simpl in Hrun.
  - injection Hrun as <-. exact Hco.
  - destruct (step ev s) as [s1|] eqn:Hstep; [|discriminate].
    eapply IH; [|exact Hrun]. eapply step_coherent; eassumption.
Qed.

End Coherence.

Section Immutability.

Lemma sameEntry_refl e : sameEntry e e.
Proof. unfold sameEntry. repeat split; lia. Qed.

Lemma sameEntry_trans e1 e2 e3 : sameEntry e1 e2 -> sameEntry e2 e3 -> sameEntry e1 e3.
Proof.
  unfold sameEntry. intros (? & ? & ? & ? & ? & ?) (? & ? & ? & ? & ? & ?).
  repeat split; try congruence. lia.
Qed.

Lemma sameEntry_touch now e : sameEntry e (touch now e).
Proof.
  unfold sameEntry. repeat split. rewrite touch_hit_count. lia.
Qed.

Lemma step_sameEntry ev s s' k e :
  coherent s -> step ev s = Some s' -> storage s !! k = Some e ->
  exists e', storage s' !! k = Some e' /\ sameEntry e e'.
Proof.
  intros Hco Hstep Hk.
  assert (Hsame : forall t, storage t = storage s ->
            exists e', storage t !! k = Some e' /\ sameEntry e e').
  { intros t ->. exists e. split; [exact Hk | apply sameEntry_refl]. }
  destruct ev as [r | i | i now | p o now | p | i]; simpl in Hstep.
  - injection Hstep as <-. apply Hsame. reflexivity.
  - destruct (callers s !! i) as [[]|]; try discriminate.
    injection Hstep as <-. apply Hsame. reflexivity.
  - destruct (callers s !! i) as [[|r k0| | | |]|]; try discriminate.
    injection Hstep as <-. unfold afterGet.
    destruct (storage s !! k0) as [cached|] eqn:Hst.
    + simpl. destruct (decide (k0 = k)) as [->|Hne].
      * rewrite lookup_insert_eq. rewrite Hk in Hst. injection Hst as <-.
        eexists. split; [reflexivity | apply sameEntry_touch].
      * rewrite lookup_insert_ne by exact Hne.
        exists e. split; [exact Hk | apply sameEntry_refl].
    + destruct (pendingRequests s !! k0); apply Hsame; reflexivity.
  - destruct (promises s !! p) as [[k0 r| | |]|] eqn:Hp; try discriminate.
    injection Hstep as <-. unfold afterUpstream.
    destruct (callOpenAI o) as [text|err]; [|apply Hsame; reflexivity].
    simpl. destruct Hco as (Ha & _). destruct (Ha _ _ _ Hp) as [Hnone _].
    rewrite lookup_insert_ne by congruence.
    exists e. split; [exact Hk | apply sameEntry_refl].
  - destruct (promises s !! p) as [[]|]; try discriminate.
    injection Hstep as <-. apply Hsame. reflexivity.
  - destruct (callers s !! i) as [[| | |pending|k0 g|]|]; try discriminate.
    + injection Hstep as <-. apply Hsame. reflexivity.
    + destruct (promises s !! pending) as [[]|]; try discriminate;
        injection Hstep as <-; apply Hsame; reflexivity.
    + destruct (promises s !! g) as [[]|]; try discriminate;
        injection Hstep as <-; apply Hsame; reflexivity.
Qed.

Lemma run_sameEntry evs : forall s s' k e,
  coherent s -> run evs s = Some s' -> storage s !! k = Some e ->
  exists e', storage s' !! k = Some e' /\ sameEntry e e'.
Proof.
  induction evs as [|ev evs IH]; intros s s' k e Hco Hrun Hk; simpl in Hrun.
  - injection Hrun as <-. exists e. split; [exact Hk | apply sameEntry_refl].
  - destruct (step ev s) as [s1|] eqn:Hstep; [|discriminate].
    destruct (step_sameEntry _ _ _ _ _ Hco Hstep Hk) as (e1 & Hk1 & H1).
    destruct (IH s1 s' k e1 (step_coherent _ _ _ Hco Hstep) Hrun Hk1) as (e' & Hk' & H').
    exists e'. split; [exact Hk' | eapply sameEntry_trans; eassumption].
Qed.

End Immutability.

(** X1. In every run of a coordinator, whatever the requests and the
    upstream outcomes, at most one upstream call is in flight for a
    fingerprint: two generations that are both awaiting the upstream
    response carry different cache keys. While one is in flight the store
    has no entry for its key and the pending table names it. *)
Theorem one_generation_in_flight (store : gmap string CachedEntry) (evs : list Event)
    (s : DurableObject) (p p' : nat) (k : string) (r r' : GatewayRequest) :
  run evs (construct store) = Some s ->
  promises s !! p = Some (Fetching k r) ->
  promises s !! p' = Some (Fetching k r') ->
  p = p' /\ storage s !! k = None /\ pendingRequests s !! k = Some p.
Proof.
  intros Hrun Hp Hp'.
  destruct (run_coherent evs _ _ (coherent_construct store) Hrun) as (Ha & _).
  destruct (Ha _ _ _ Hp) as [Hs H1]. destruct (Ha _ _ _ Hp') as [_ H2].
  split; [congruence|]. split; assumption.
Qed.

Lemma one_generation_in_flight_witness :
  exists s,
    run [Call bareRequest; Call bareRequest; KeyReady 0; KeyReady 1; GetDone 0 100;
         GetDone 1 101] (construct ∅) = Some s /\
    (0 = 0)%nat /\
    storage s !! generateCacheKey bareRequest = None /\
    pendingRequests s !! generateCacheKey bareRequest = Some 0%nat.
Proof.
  exists (afterGet 1 101 bareRequest (generateCacheKey bareRequest)
            (afterGet 0 100 bareRequest (generateCacheKey bareRequest) twoReaders)).
  split; [vm_compute; reflexivity|].
  apply (one_generation_in_flight ∅
           [Call bareRequest; Call bareRequest; KeyReady 0; KeyReady 1; GetDone 0 100;
            GetDone 1 101] _ 0 0 (generateCacheKey bareRequest) bareRequest bareRequest);
    vm_compute; reflexivity.
Defined.

(** X2. In every run of a coordinator, once every caller has returned,
    with a value or with an error, the pending table is empty: no
    fingerprint is left pending. *)
Theorem pending_empty_when_quiescent (store : gmap string CachedEntry) (evs : list Event)
    (s : DurableObject) :
  run evs (construct store) = Some s ->
  Forall returned (callers s) ->
  pendingRequests s = ∅.
Proof.
  intros Hrun Hdone.
  destruct (run_coherent evs _ _ (coherent_construct store) Hrun) as (_ & _ & Hc & _).
  apply map_empty. intros k.
  destruct (pendingRequests s !! k) as [g|] eqn:Hk; [|reflexivity].
  destruct (Hc _ _ Hk) as [i Hi].
  pose proof (Forall_lookup_1 _ _ _ _ Hdone Hi) as [result Hr]. discriminate Hr.
Qed.

Lemma pending_empty_when_quiescent_witness :
  exists s, run retriedCalls (construct ∅) = Some s /\ pendingRequests s = ∅.
Proof.
  exists (default (construct ∅) (run retriedCalls (construct ∅))).
  split; [vm_compute; reflexivity|].
  apply (pending_empty_when_quiescent ∅ retriedCalls).
  - vm_compute. reflexivity.
  - vm_compute. repeat constructor; eexists; reflexivity.
Defined.

(** X3. In every run of a coordinator, an entry that is in the store at
    some moment is still there at every later moment, with the same
    content, model, seed, request hash and [cached_at], and a hit count
    that has not decreased. *)
Theorem stored_entry_immutable (store : gmap string CachedEntry) (evs evs' : list Event)
    (s s' : DurableObject) (k : string) (e : CachedEntry) :
  run evs (construct store) = Some s ->
  run evs' s = Some s' ->
  storage s !! k = Some e ->
  exists e', storage s' !! k = Some e' /\ sameEntry e e'.
Proof.
  intros Hrun Hrun' Hk.
  eapply run_sameEntry; [|exact Hrun' | exact Hk].
  eapply run_coherent; [apply coherent_construct | exact Hrun].
Qed.

Lemma stored_entry_immutable_witness :
  exists s',
    run [Call bareRequest; KeyReady 0; GetDone 0 100;
         UpstreamDone 0 (upstreamOk "hello") 200;
         PutDone 0; Resume 0; Call bareRequest; KeyReady 1; GetDone 1 300; Resume 1]
        (construct ∅) = Some s' /\
    exists e', storage s' !! generateCacheKey bareRequest = Some e' /\
               sameEntry (newEntry (generateCacheKey bareRequest) bareRequest "hello" 200) e'.
Proof.
  exists (default (construct ∅)
            (run [Call bareRequest; KeyReady 0; GetDone 0 100;
                  UpstreamDone 0 (upstreamOk "hello") 200;
                  PutDone 0; Resume 0; Call bareRequest; KeyReady 1; GetDone 1 300; Resume 1]
                 (construct ∅))).
  split; [vm_compute; reflexivity|].
  apply (stored_entry_immutable ∅
           [Call bareRequest; KeyReady 0; GetDone 0 100;
            UpstreamDone 0 (upstreamOk "hello") 200]
           [PutDone 0; Resume 0; Call bareRequest; KeyReady 1; GetDone 1 300; Resume 1]
           (default (construct ∅)
              (run [Call bareRequest; KeyReady 0; GetDone 0 100;
                    UpstreamDone 0 (upstreamOk "hello") 200] (construct ∅))));
    vm_compute; reflexivity.
Defined.

Section Provenance.

Lemma answeredBy_snoc evs ev p entry :
  answeredBy evs p entry -> answeredBy (evs ++ [ev]) p entry.
Proof.
  intros (o & now & Hin & Hok & Hat). exists o, now.
  split; [apply elem_of_app; left; exact Hin | split; assumption].
Qed.

Lemma provenance_construct store : provenance store [] (construct store).
Proof.
  split; simpl.
  - intros p entry [H | H]; discriminate H.
  - intros k e Hk. left. exists e. split; [exact Hk | apply sameEntry_refl].
Qed.

(** A step that leaves the promises and the store alone. *)
Lemma provenance_frame store evs ev s t :
  provenance store evs s -> promises t = promises s -> storage t = storage s ->
  provenance store (evs ++ [ev]) t.
Proof.
  intros [H1 H2] Hp Hs. unfold provenance. rewrite Hp, Hs. split.
  - intros p entry Hg. apply answeredBy_snoc. eauto.
  - exact H2.
Qed.

Lemma step_provenance store evs ev s s' :
  coherent s -> provenance store evs s -> step ev s = Some s' ->
  provenance store (evs ++ [ev]) s'.
Proof.
  intros Hco Hprov Hstep.
  destruct ev as [r | i | i now | p o now | p | i]; simpl in Hstep.
  - injection Hstep as <-. eapply provenance_frame; eauto.
  - destruct (callers s !! i) as [[]|]; try discriminate.
    injection Hstep as <-. eapply provenance_frame; eauto.
  - destruct (callers s !! i) as [[|r k0| | | |]|]; try discriminate.
    injection Hstep as <-. unfold afterGet.
    destruct (storage s !! k0) as [cached|] eqn:Hst.
    + destruct Hprov as [H1 H2]. split; simpl.
      * intros p entry Hg. apply answeredBy_snoc. eauto.
      * intros k e Hk. destruct (decide (k0 = k)) as [->|Hne].
        -- rewrite lookup_insert_eq in Hk. injection Hk as <-.
           destruct (H2 _ _ Hst) as [(e0 & He0 & Hsame) | (p & entry & Hg & Hh & Hsame)].
           ++ left. exists e0. split; [exact He0|].
              eapply sameEntry_trans; [exact Hsame | apply sameEntry_touch].
           ++ right. exists p, entry. split; [exact Hg|]. split; [exact Hh|].
              eapply sameEntry_trans; [exact Hsame | apply sameEntry_touch].
        -- rewrite lookup_insert_ne in Hk by exact Hne. eauto.
    + destruct (pendingRequests s !! k0).
      * eapply provenance_frame; eauto.
      * destruct Hprov as [H1 H2]. split; simpl.
        -- intros p entry [Hg | Hg];
             apply lookup_snoc_Some in Hg as [[_ Hg] | [_ Hg]]; try discriminate Hg;
             apply answeredBy_snoc; apply H1; [left | right]; exact Hg.
        -- intros k e Hk.
           destruct (H2 _ _ Hk) as [Hold | (p & entry & Hg & Hh & Hsame)]; [left; exact Hold|].
           right. exists p, entry. split; [|split; assumption].
           destruct Hg as [Hg | Hg]; [left | right]; apply lookup_app_l_Some; exact Hg.
  - destruct (promises s !! p) as [[k0 r| | |]|] eqn:Hp; try discriminate.
    injection Hstep as <-. unfold afterUpstream. destruct Hprov as [H1 H2].
    assert (Hkeep : forall g q entry, generatedAt (promises s) q entry ->
              generatedAt (<[p := g]> (promises s)) q entry).
    { intros g q entry [Hg | Hg]; [left | right];
        (rewrite list_lookup_insert_ne; [exact Hg | intros ->; congruence]). }
    assert (Hback : forall g q entry, (forall e, g <> Fulfilled e) ->
              generatedAt (<[p := g]> (promises s)) q entry ->
              (q = p /\ g = Storing entry) \/ generatedAt (promises s) q entry).
    { intros g q entry Hg [Hq | Hq];
        apply list_lookup_insert_Some in Hq as [(-> & Heq & _) | [Hne Hq]].
      - left. split; [reflexivity | exact Heq].
      - right. left. exact Hq.
      - exfalso. eapply Hg. exact Heq.
      - right. right. exact Hq. }
    destruct (callOpenAI o) as [text|err] eqn:Hcall; split; simpl.
    + intros q entry Hq. apply Hback in Hq as [[-> Heq] | Hq]; [| |discriminate].
      * injection Heq as <-. exists o, now. split; [|split; [exact Hcall | reflexivity]].
        apply elem_of_app. right. apply list_elem_of_singleton. reflexivity.
      * apply answeredBy_snoc. eauto.
    + intros k e Hk. destruct (decide (k0 = k)) as [->|Hne].
      * rewrite lookup_insert_eq in Hk. injection Hk as <-. right.
        exists p, (newEntry k r text now). split; [|split; [reflexivity | apply sameEntry_refl]].
        left. apply list_lookup_insert_eq. eapply lookup_lt_Some. exact Hp.
      * rewrite lookup_insert_ne in Hk by exact Hne.
        destruct (H2 _ _ Hk) as [Hold | (q & entry & Hg & Hh & Hsame)]; [left; exact Hold|].
        right. exists q, entry. split; [apply Hkeep; exact Hg | split; assumption].
    + intros q entry Hq. apply Hback in Hq as [[-> Heq] | Hq]; [discriminate Heq| |discriminate].
      apply answeredBy_snoc. eauto.
    + intros k e Hk.
      destruct (H2 _ _ Hk) as [Hold | (q & entry & Hg & Hh & Hsame)]; [left; exact Hold|].
      right. exists q, entry. split; [apply Hkeep; exact Hg | split; assumption].
  - destruct (promises s !! p) as [[|entry0| |]|] eqn:Hp; try discriminate.
    injection Hstep as <-. destruct Hprov as [H1 H2]. split; simpl.
    + intros q entry [Hq | Hq];
        apply list_lookup_insert_Some in Hq as [(-> & Heq & _) | [Hne Hq]];
        try discriminate Heq; apply answeredBy_snoc; apply H1.
      * left. exact Hq.
      * injection Heq as <-. left. exact Hp.
      * right. exact Hq.
    + intros k e Hk.
      destruct (H2 _ _ Hk) as [Hold | (q & entry & Hg & Hh & Hsame)]; [left; exact Hold|].
      right. exists q, entry. split; [|split; assumption].
      destruct (decide (q = p)) as [->|Hne].
      * destruct Hg as [Hg | Hg]; rewrite Hp in Hg; [|discriminate Hg].
        injection Hg as <-. right. apply list_lookup_insert_eq.
        eapply lookup_lt_Some. exact Hp.
      * destruct Hg as [Hg | Hg]; [left | right];
          (rewrite list_lookup_insert_ne by congruence); exact Hg.
  - destruct (callers s !! i) as [[| | |pending|k0 g|]|]; try discriminate.
    + injection Hstep as <-. eapply provenance_frame; eauto.
    + destruct (promises s !! pending) as [[]|]; try discriminate;
        injection Hstep as <-; eapply provenance_frame; eauto.
    + destruct (promises s !! g) as [[]|]; try discriminate;
        injection Hstep as <-; eapply provenance_frame; eauto.
Qed.

Lemma run_provenance store evs : forall evs0 s s',
  coherent s -> provenance store evs0 s -> run evs s = Some s' ->
  provenance store (evs0 ++ evs) s'.
Proof.
  induction evs as [|ev evs IH]; intros evs0 s s' Hco Hprov Hrun; simpl in Hrun.
  - injection Hrun as <-. rewrite app_nil_r. exact Hprov.
  - destruct (step ev s) as [s1|] eqn:Hstep; [|discriminate].
    replace (evs0 ++ ev :: evs)%list with ((evs0 ++ [ev]) ++ evs)%list
      by (rewrite <- app_assoc; reflexivity).
    eapply IH; [| |exact Hrun].
    + eapply step_coherent; eassumption.
    + eapply step_provenance; eassumption.
Qed.

End Provenance.

(** X4. In every run of a coordinator, an entry found under a key the
    initial store did not have was built from a successful upstream
    response delivered in that run: it carries the content of that
    response, the time of that response as [cached_at], and its own key
    as [request_hash]. A failed upstream call therefore never leaves an
    entry. *)
Theorem stored_entry_provenance (store : gmap string CachedEntry) (evs : list Event)
    (s : DurableObject) (k : string) (e : CachedEntry) :
  run evs (construct store) = Some s ->
  store !! k = None ->
  storage s !! k = Some e ->
  request_hash e = k /\
  exists p o now,
    UpstreamDone p o now ∈ evs /\ callOpenAI o = Ok (content e) /\ cached_at e = now.
Proof.
  intros Hrun Hfresh Hk.
  destruct (run_provenance store evs [] _ _ (coherent_construct store)
              (provenance_construct store) Hrun) as [H1 H2].
  destruct (H2 _ _ Hk) as [(e0 & He0 & _) | (p & entry & Hg & Hh & Hsame)];
    [congruence|].
  destruct Hsame as (Hc & _ & _ & Hrh & Hat & _).
  split; [congruence|].
  destruct (H1 _ _ Hg) as (o & now & Hin & Hok & Hnow).
  exists p, o, now. simpl in Hin. repeat split; [exact Hin | congruence | congruence].
Qed.

Lemma stored_entry_provenance_witness :
  exists s e,
    run retriedCalls (construct ∅) = Some s /\
    storage s !! generateCacheKey bareRequest = Some e /\
    request_hash e = generateCacheKey bareRequest /\
    exists p o now,
      UpstreamDone p o now ∈ retriedCalls /\ callOpenAI o = Ok (content e) /\
      cached_at e = now.
Proof.
  exists (default (construct ∅) (run retriedCalls (construct ∅))),
         (newEntry (generateCacheKey bareRequest) bareRequest "hello" 400).
  split; [vm_compute; reflexivity|].
  split; [vm_compute; reflexivity|].
  apply (stored_entry_provenance ∅ retriedCalls
           (default (construct ∅) (run retriedCalls (construct ∅)))).
  - vm_compute. reflexivity.
  - apply lookup_empty.
  - vm_compute. reflexivity.
Defined.

Section Http.

Variable engine : Engine.

Lemma asRequest_first first1 first2 v req :
  asRequest first1 v = Ok req -> asRequest first2 v = Ok req.
Proof.
  unfold asRequest. destruct v; simpl; intros H; try discriminate H; exact H.
Qed.

Lemma lookupProp_object name props :
  Js.lookupProp name
    (List.filter (fun kv => match snd kv with JUndefined => false | _ => true end) props) =
  Js.lookupProp name props.
Proof.
  induction props as [|[k v] props IH]; [reflexivity|].
  destruct v; simpl; rewrite ?IH; try reflexivity.
  destruct (Js.lookupProp name props); destruct (String.eqb k name); reflexivity.
Qed.

Lemma getProp_object name props :
  Js.getProp (Js.object props) name = Some (Js.lookupProp name props).
Proof. unfold Js.object; simpl. rewrite lookupProp_object. reflexivity. Qed.

(** The fields the worker reads from a successful reply of the
    coordinator. *)
Lemma entryJson_fields entry cached :
  Js.getProp (entryJson entry cached) "request_hash" = Some (JString (request_hash entry)) /\
  Js.getProp (entryJson entry cached) "content" = Some (JString (content entry)) /\
  Js.getProp (entryJson entry cached) "model" = Some (entry_model entry) /\
  Js.getProp (entryJson entry cached) "seed" = Some (entry_seed entry) /\
  Js.getProp (entryJson entry cached) "cached" = Some (JBool cached).
Proof.
  unfold entryJson. rewrite !getProp_object.
  repeat split; simpl; try reflexivity.
  - destruct (entry_model entry); reflexivity.
  - destruct (entry_seed entry); destruct (entry_model entry); reflexivity.
Qed.

(** The worker on a coordinator response that is [ok] and carries JSON. *)
Lemma respond_json env r cachedEntry :
  ok r = true -> body r = Json cachedEntry ->
  Worker.respond engine env r =
  match Js.getProp cachedEntry "request_hash" with
  | None => Worker.workerError engine (Js.typeError cachedEntry "request_hash")
  | Some request_hash =>
      match generateSignature engine (Js.toString request_hash)
              (Js.toString (default JUndefined (Js.getProp cachedEntry "content")))
              (SIGNING_SECRET env) with
      | Throw e => Worker.workerError engine e
      | Ok signature =>
          {| status := 200; headers := jsonHeaders ++ Worker.corsHeaders;
             body := Json (Js.object
               [("content", default JUndefined (Js.getProp cachedEntry "content"));
                ("model", default JUndefined (Js.getProp cachedEntry "model"));
                ("seed", default JUndefined (Js.getProp cachedEntry "seed"));
                ("signature", JString signature);
                ("cached", default JUndefined (Js.getProp cachedEntry "cached"));
                ("request_hash", request_hash)]) |}
      end
  end.
Proof. intros Hok Hbody. unfold Worker.respond. rewrite Hok, Hbody. reflexivity. Qed.

Lemma generateSignature_keyed requestHash content secret :
  secret <> "" ->
  generateSignature engine requestHash content (Some secret) =
  Ok (Bytes.toHex (Sha256.hmac (Bytes.encode secret)
                               (Bytes.encode (requestHash +:+ ":" +:+ content)))).
Proof.
  intros Hne. unfold generateSignature, importKey. simpl.
  destruct (Bytes.encode secret) eqn:Henc; [|reflexivity].
  apply encode_nil in Henc. contradiction.
Qed.

(** The worker's response to a successful reply, with a secret. *)
Lemma respond_success env entry cached secret :
  SIGNING_SECRET env = Some secret -> secret <> "" ->
  Worker.respond engine env (Coordinator.generateReply (Ok (entry, cached))) =
  {| status := 200;
     headers := jsonHeaders ++ Worker.corsHeaders;
     body := Json (Js.object
       [("content", JString (content entry));
        ("model", entry_model entry);
        ("seed", entry_seed entry);
        ("signature", JString (Bytes.toHex (Sha256.hmac (Bytes.encode secret)
           (Bytes.encode (request_hash entry +:+ ":" +:+ content entry)))));
        ("cached", JBool cached);
        ("request_hash", JString (request_hash entry))]) |}.
Proof.
  intros Hsecret Hne.
  destruct (entryJson_fields entry cached) as (Hh & Hc & Hm & Hs & Hb).
  rewrite (respond_json env (Coordinator.generateReply (Ok (entry, cached)))
             (entryJson entry cached) eq_refl eq_refl).
  rewrite Hh, Hc, Hm, Hs, Hb, Hsecret. cbn [default Js.toString].
  rewrite (generateSignature_keyed _ _ _ Hne). reflexivity.
Qed.

(** ** What [JSON.stringify] writes *)

Lemma jsval_nested_ind (P : jsval -> Prop) :
  P JUndefined -> P JNull -> (forall b, P (JBool b)) -> (forall n, P (JNumber n)) ->
  (forall decimal, P (JFraction decimal)) -> (forall s, P (JString s)) ->
  (forall elems, Forall P elems -> P (JArray elems)) ->
  (forall props, Forall (fun kv => P (snd kv)) props -> P (JObject props)) ->
  forall v, P v.
Proof.
  intros Hu Hn Hb Hz Hf Hs Ha Ho. fix IH 1.
  intros [| |b|n|decimal|s|elems|props];
    [exact Hu | exact Hn | apply Hb | apply Hz | apply Hf | apply Hs | |].
  - apply Ha. revert elems. fix IHl 1.
    intros [|x rest]; constructor; [apply IH | apply IHl].
  - apply Ho. revert props. fix IHl 1.
    intros [|[k x] rest]; constructor; [apply IH | apply IHl].
Qed.

Lemma jsonValue_undefined v : Js.jsonValue v = JUndefined -> v = JUndefined.
Proof.
  destruct v; simpl; try discriminate; auto.
  destruct (Js.notFinite decimal); discriminate.
Qed.

(** Reading a property of what was written is writing the property. *)
Lemma lookupProp_written name props :
  Js.lookupProp name (Js.writtenProps Js.jsonValue props) =
  Js.jsonValue (Js.lookupProp name props).
Proof.
  induction props as [|[k x] props IH]; [reflexivity|].
  assert (Hskip : Js.lookupProp name ((k, x) :: props) =
                  match Js.lookupProp name props with
                  | JUndefined => if String.eqb k name then x else JUndefined
                  | found => found
                  end) by reflexivity.
  rewrite Hskip. clear Hskip.
  destruct (Js.jsonValue x) eqn:Hx.
  { apply jsonValue_undefined in Hx. subst x. cbn [Js.writtenProps]. rewrite IH.
    destruct (Js.lookupProp name props), (String.eqb k name); reflexivity. }
  all: assert (Hw : Js.writtenProps Js.jsonValue ((k, x) :: props) =
                    (k, Js.jsonValue x) :: Js.writtenProps Js.jsonValue props)
         by (destruct x; try reflexivity; discriminate Hx).
  all: rewrite Hw; cbn [Js.lookupProp]; rewrite IH, Hx.
  all: destruct (Js.lookupProp name props) as [| | | |d| | |] eqn:Hl;
         cbn [Js.jsonValue]; try (destruct (Js.notFinite d));
         destruct (String.eqb k name); rewrite ?Hx; reflexivity.
Qed.

Lemma getProp_written v name :
  (exists props, v = JObject props) ->
  Js.getProp (Js.jsonValue v) name =
  Some (Js.jsonValue (default JUndefined (Js.getProp v name))).
Proof.
  intros [props ->]. cbn [Js.jsonValue Js.getProp default].
  rewrite lookupProp_written. reflexivity.
Qed.

(** A body that passes validation is an object. *)
Lemma asRequest_object v req :
  asRequest "model" v = Ok req -> valid (validateRequest req) = true ->
  exists props, v = JObject props.
Proof.
  unfold asRequest. destruct v; simpl; try discriminate; intros [= <-]; try discriminate.
  intros _. eexists. reflexivity.
Qed.

(** The coordinator reads the forwarded body as the request written by
    [JSON.stringify]. *)
Lemma asRequest_forwarded v req :
  asRequest "model" v = Ok req -> valid (validateRequest req) = true ->
  asRequest "temperature" (Js.jsonValue v) = Ok (forwardedRequest req).
Proof.
  intros Hreq Hvalid. destruct (asRequest_object v req Hreq Hvalid) as [props ->].
  unfold asRequest in *. cbn [Js.jsonValue Js.getProp default] in *.
  injection Hreq as <-. unfold forwardedRequest. cbn [model prompt seed temperature
    max_tokens system_prompt]. rewrite !lookupProp_written. reflexivity.
Qed.

Lemma forwardedRequest_same v req :
  asRequest "model" v = Ok req -> valid (validateRequest req) = true ->
  Js.jsonValue v = v -> forwardedRequest req = req.
Proof.
  intros Hreq Hvalid Hsame. destruct (asRequest_object v req Hreq Hvalid) as [props ->].
  cbn [Js.jsonValue] in Hsame. injection Hsame as Hsame.
  unfold asRequest in Hreq. cbn [Js.getProp default] in Hreq. injection Hreq as <-.
  unfold forwardedRequest. cbn [model prompt seed temperature max_tokens system_prompt].
  rewrite <- !lookupProp_written, Hsame. reflexivity.
Qed.

(** Writing a value makes no conversion to a string throw. *)
Lemma toStringThrows_written v :
  Js.toStringThrows (Js.jsonValue v) = true -> Js.toStringThrows v = true.
Proof.
  induction v as [| |b|n|decimal|s|elems IH|props _] using jsval_nested_ind;
    try (intros H; exact H).
  - cbn [Js.jsonValue]. destruct (Js.notFinite decimal); intros H; exact H.
  - cbn [Js.jsonValue Js.toStringThrows].
    induction IH as [|x rest Hx _ IHrest]; [intros H; exact H|].
    cbn [map existsb]. intros H. apply orb_true_iff in H as [H|H].
    + apply orb_true_iff. left.
      destruct x; try discriminate H; try exact H.
      * cbn [Js.jsonValue] in H. destruct (Js.notFinite decimal); [discriminate H | exact H].
      * apply Hx. destruct (Js.jsonValue (JArray elems)); try discriminate H; exact H.
      * apply Hx. destruct (Js.jsonValue (JObject props)); try discriminate H; exact H.
    + apply orb_true_iff. right. apply IHrest. exact H.
  - cbn [Js.jsonValue Js.toStringThrows].
    induction props as [|[k x] rest IHrest]; [intros H; exact H|].
    cbn [existsb fst]. intros H.
    assert (Hcase : String.eqb k "toString" = true \/
                    existsb (fun kv => String.eqb (fst kv) "toString")
                            (Js.writtenProps Js.jsonValue rest) = true).
    { destruct x; cbn [Js.writtenProps existsb fst] in H;
        try (apply orb_true_iff in H; exact H); right; exact H. }
    apply orb_true_iff. destruct Hcase as [Hk|Hrest]; [left; exact Hk|].
    right. apply IHrest. exact Hrest.
Qed.

Lemma nullish_written x d :
  Js.toStringThrows d = false ->
  Js.toStringThrows (Js.nullish x d) = false ->
  Js.toStringThrows (Js.nullish (Js.jsonValue x) d) = false.
Proof.
  intros Hd Hx.
  destruct (Js.toStringThrows (Js.nullish (Js.jsonValue x) d)) eqn:H; [|reflexivity].
  destruct x; cbn [Js.jsonValue Js.nullish] in *; try congruence.
  - destruct (Js.notFinite decimal); cbn [Js.nullish] in H; congruence.
  - rewrite (toStringThrows_written (JArray elems) H) in Hx. discriminate Hx.
  - rewrite (toStringThrows_written (JObject props) H) in Hx. discriminate Hx.
Qed.

(** A request that the worker forwards converts to a key at the
    coordinator. *)
Lemma keyStringThrows_forwarded req :
  keyStringThrows req = false -> keyStringThrows (forwardedRequest req) = false.
Proof.
  unfold keyStringThrows, forwardedRequest.
  cbn [model prompt seed temperature max_tokens system_prompt].
  intros H. repeat (apply orb_false_iff in H as [H ?]).
  assert (Hplain : forall x, Js.toStringThrows x = false ->
                             Js.toStringThrows (Js.jsonValue x) = false).
  { intros x Hx. destruct (Js.toStringThrows (Js.jsonValue x)) eqn:Hw; [|reflexivity].
    rewrite (toStringThrows_written x Hw) in Hx. discriminate Hx. }
  rewrite !Hplain by assumption. rewrite !nullish_written by (assumption || reflexivity).
  reflexivity.
Qed.

End Http.


(** X5. The worker forwards a request exactly when it is a
    [POST /generate] whose body parses to a request that passes
    validation and whose fields convert to strings for the cache key;
    when a field does not convert, it answers 500 with code
    [WORKER_ERROR]. It names the coordinator by the cache key of the
    request and forwards the body as [JSON.stringify] writes it, which is
    the body itself unless it holds a number that is not finite; the
    coordinator reads the written request from it, derives a key for it
    without throwing, and starts a call for it. *)
Theorem worker_forwards_valid_requests (engine : Engine) (request : Request) (env : Env) :
  (forall v req,
     method request = "POST" -> pathname request = "/generate" ->
     json request = Parsed v -> asRequest "model" v = Ok req ->
     valid (validateRequest req) = true ->
     (keyStringThrows req = true ->
      Worker.fetch engine request env =
        Worker.Answered
          {| status := 500; headers := jsonHeaders ++ Worker.corsHeaders;
             body := Json (gatewayError "Cannot convert object to primitive value"
                                        "WORKER_ERROR"
                                        (stackTrace engine Js.toPrimitiveError)) |}) /\
     (keyStringThrows req = false ->
      Worker.fetch engine request env =
        Worker.Forwarded (generateCacheKey req)
          {| method := "POST"; pathname := "/generate"; json := Parsed (Js.jsonValue v) |}
          (Worker.respond engine env) /\
      keyStringThrows (forwardedRequest req) = false /\
      (Js.jsonValue v = v -> forwardedRequest req = req) /\
      forall now s,
        Coordinator.fetch env now
          {| method := "POST"; pathname := "/generate"; json := Parsed (Js.jsonValue v) |} s =
        Coordinator.Suspended
          {| storage := storage s; pendingRequests := pendingRequests s;
             promises := promises s;
             callers := callers s ++ [Entered (forwardedRequest req)];
             upstream := upstream s |})) /\
  (forall cacheKey forwarded respond,
     Worker.fetch engine request env = Worker.Forwarded cacheKey forwarded respond ->
     method request = "POST" /\ pathname request = "/generate" /\
     exists v req,
       json request = Parsed v /\ asRequest "model" v = Ok req /\
       valid (validateRequest req) = true /\ keyStringThrows req = false /\
       cacheKey = generateCacheKey req /\
       json forwarded = Parsed (Js.jsonValue v)).
Proof.
  split.
  - intros v req Hm Hp Hj Hreq Hvalid. split; intros Hkey.
    + unfold Worker.fetch. rewrite Hm, Hp, Hj, Hreq. simpl. rewrite Hvalid, Hkey.
      reflexivity.
    + split; [|split; [|split]].
      * unfold Worker.fetch. rewrite Hm, Hp, Hj, Hreq. simpl. rewrite Hvalid, Hkey.
        reflexivity.
      * apply keyStringThrows_forwarded. exact Hkey.
      * apply (forwardedRequest_same v req Hreq Hvalid).
      * intros now s. unfold Coordinator.fetch. simpl.
        rewrite (asRequest_forwarded v req Hreq Hvalid). reflexivity.
  - intros cacheKey forwarded respond. unfold Worker.fetch.
    destruct (String.eqb (method request) "OPTIONS"); [discriminate|].
    destruct (String.eqb (pathname request) "/health" && _); [discriminate|].
    destruct (String.eqb_spec (pathname request) "/generate") as [Hp|Hp]; simpl.
    + destruct (String.eqb_spec (method request) "POST") as [Hm|Hm]; simpl.
      * destruct (json request) as [e|v]; [discriminate|].
        destruct (asRequest "model" v) as [req|e] eqn:Hreq; [|discriminate].
        destruct (valid (validateRequest req)) eqn:Hvalid; simpl; [|discriminate].
        destruct (keyStringThrows req) eqn:Hkey; [discriminate|].
        intros [= <- <- _]. split; [exact Hm|]. split; [exact Hp|].
        exists v, req. repeat split; assumption.
      * destruct (String.eqb (pathname request) "/cleanup" && _); discriminate.
    + destruct (String.eqb (pathname request) "/cleanup" && _); discriminate.
Qed.

Lemma worker_forwards_valid_requests_witness :
  Worker.fetch someEngine
    {| method := "POST"; pathname := "/generate"; json := Parsed infiniteSeedBody |}
    someEnv =
  Worker.Forwarded (generateCacheKey infiniteSeedRequest)
    {| method := "POST"; pathname := "/generate";
       json := Parsed (JObject [("model", JString "m"); ("prompt", JString "p");
                                ("seed", JNull)]) |}
    (Worker.respond someEngine someEnv).
Proof.
  destruct (proj1 (worker_forwards_valid_requests someEngine
                     {| method := "POST"; pathname := "/generate";
                        json := Parsed infiniteSeedBody |} someEnv)
                  infiniteSeedBody infiniteSeedRequest
                  eq_refl eq_refl eq_refl eq_refl eq_refl) as [_ H].
  destruct (H eq_refl) as [Hforward _]. exact Hforward.
Defined.

(** X6. With a signing secret configured, the worker turns a successful
    reply of the coordinator into a 200 that carries the entry's content,
    model, seed and request hash, the coordinator's [cached] flag, and
    the HMAC-SHA256, keyed by the secret, of the request hash and the
    content joined by a colon; the timestamps and the hit count of the
    entry are not passed on. *)
Theorem worker_signs_reply (engine : Engine) (env : Env) (entry : CachedEntry) (cached : bool)
    (secret : string) :
  SIGNING_SECRET env = Some secret -> secret <> "" ->
  Worker.respond engine env (Coordinator.generateReply (Ok (entry, cached))) =
  {| status := 200;
     headers := jsonHeaders ++ Worker.corsHeaders;
     body := Json (Js.object
       [("content", JString (content entry));
        ("model", entry_model entry);
        ("seed", entry_seed entry);
        ("signature", JString (Bytes.toHex (Sha256.hmac (Bytes.encode secret)
           (Bytes.encode (request_hash entry +:+ ":" +:+ content entry)))));
        ("cached", JBool cached);
        ("request_hash", JString (request_hash entry))]) |}.
Proof. apply respond_success. Qed.

Lemma worker_signs_reply_witness :
  exists signature,
    body (Worker.respond someEngine someEnv (Coordinator.generateReply (Ok (oldEntry 400 1, true)))) =
    Json (Js.object [("content", JString "text"); ("model", JString "m");
                     ("seed", JNumber 1); ("signature", JString signature);
                     ("cached", JBool true); ("request_hash", JString "h")]).
Proof.
  eexists.
  rewrite (worker_signs_reply someEngine someEnv (oldEntry 400 1) true "secret" eq_refl);
    [reflexivity | discriminate].
Defined.

(** X7. Without a signing secret (unset or empty) the worker answers
    every successful reply of the coordinator with a 500 of code
    [WORKER_ERROR], whose message is that of the engine's [DataError] and
    whose details are the trace of that error: the content that was
    generated and stored is not returned. *)
Theorem worker_fails_without_secret (engine : Engine) (env : Env) (entry : CachedEntry)
    (cached : bool) :
  SIGNING_SECRET env = None \/ SIGNING_SECRET env = Some "" ->
  Worker.respond engine env (Coordinator.generateReply (Ok (entry, cached))) =
  {| status := 500;
     headers := jsonHeaders ++ Worker.corsHeaders;
     body := Json (gatewayError
                     (messageOr (newError (dataErrorMessage engine)) "Internal server error")
                     "WORKER_ERROR"
                     (stackTrace engine (newError (dataErrorMessage engine)))) |}.
Proof.
  intros Hsecret.
  destruct (entryJson_fields entry cached) as (Hh & Hc & _).
  rewrite (respond_json engine env (Coordinator.generateReply (Ok (entry, cached)))
             (entryJson entry cached) eq_refl eq_refl).
  rewrite Hh, Hc. destruct Hsecret as [-> | ->]; reflexivity.
Qed.

Lemma worker_fails_without_secret_witness :
  Worker.respond someEngine
    {| OPENAI_API_KEY := "sk"; SIGNING_SECRET := None; CACHE_RETENTION_DAYS := None |}
    (Coordinator.generateReply (Ok (oldEntry 400 1, false))) =
  {| status := 500;
     headers := jsonHeaders ++ Worker.corsHeaders;
     body := Json (JObject [("error", JString "Zero-length key is not supported");
                            ("code", JString "WORKER_ERROR");
                            ("details",
                             JString "Error: Zero-length key is not supported")]) |}.
Proof.
  apply (worker_fails_without_secret someEngine
           {| OPENAI_API_KEY := "sk"; SIGNING_SECRET := None; CACHE_RETENTION_DAYS := None |}
           (oldEntry 400 1) false).
  left. reflexivity.
Defined.

(** X8. Every response of the worker carries the three CORS headers: the
    answers it gives by itself, and whatever it makes of a coordinator's
    response. *)
Theorem worker_responses_carry_cors (engine : Engine) (request : Request) (env : Env) :
  (forall r, Worker.fetch engine request env = Worker.Answered r ->
             headers r = Worker.corsHeaders \/
             headers r = (jsonHeaders ++ Worker.corsHeaders)%list) /\
  (forall cacheKey forwarded respond doResponse,
     Worker.fetch engine request env = Worker.Forwarded cacheKey forwarded respond ->
     headers (respond doResponse) = (jsonHeaders ++ Worker.corsHeaders)%list).
Proof.
  assert (Hrespond : forall doResponse,
            headers (Worker.respond engine env doResponse) = (jsonHeaders ++ Worker.corsHeaders)%list).
  { intros doResponse. unfold Worker.respond.
    destruct (negb (ok doResponse)); [reflexivity|].
    destruct (body doResponse) as [| |cachedEntry]; try reflexivity.
    destruct (Js.getProp cachedEntry "request_hash"); [|reflexivity].
    destruct (generateSignature _ _ _); reflexivity. }
  unfold Worker.fetch.
  destruct (String.eqb (method request) "OPTIONS").
  { split; [intros r [= <-]; left; reflexivity | discriminate]. }
  destruct (String.eqb (pathname request) "/health" && _).
  { split; [intros r [= <-]; right; reflexivity | discriminate]. }
  destruct (String.eqb (pathname request) "/generate" && _).
  { destruct (json request) as [e|v].
    { split; [intros r [= <-]; right; reflexivity | discriminate]. }
    destruct (asRequest "model" v) as [req|e].
    2:{ split; [intros r [= <-]; right; reflexivity | discriminate]. }
    destruct (negb (valid (validateRequest req))).
    { split; [intros r [= <-]; right; reflexivity | discriminate]. }
    destruct (keyStringThrows req).
    { split; [intros r [= <-]; right; reflexivity | discriminate]. }
    split; [discriminate|].
    intros cacheKey forwarded respond doResponse [= _ _ <-]. apply Hrespond. }
  destruct (String.eqb (pathname request) "/cleanup" && _).
  { split; [intros r [= <-]; right; reflexivity | discriminate]. }
  split; [intros r [= <-]; left; reflexivity | discriminate].
Qed.

Lemma worker_responses_carry_cors_witness :
  headers (Worker.respond someEngine someEnv
             (Coordinator.generateReply (Throw (newError "fetch failed")))) =
  (jsonHeaders ++ Worker.corsHeaders)%list.
Proof.
  apply (proj2 (worker_responses_carry_cors someEngine
                  {| method := "POST"; pathname := "/generate";
                     json := Parsed (JObject [("model", JString "m"); ("prompt", JString "p");
                                              ("seed", JNumber 12345)]) |} someEnv)
               (generateCacheKey bareRequest)
               {| method := "POST"; pathname := "/generate";
                  json := Parsed (JObject [("model", JString "m"); ("prompt", JString "p");
                                           ("seed", JNumber 12345)]) |}
               (Worker.respond someEngine someEnv)).
  reflexivity.
Defined.

(** X9. A [POST /generate] whose body is not JSON, or is the JSON [null],
    is answered by the worker with a 500 of code [WORKER_ERROR], not with
    a 400; the coordinator answers such a body with a 500 of code
    [DURABLE_OBJECT_ERROR] and starts no call. *)
Theorem unreadable_body_is_an_internal_error (engine : Engine) (request : Request) (env : Env) :
  method request = "POST" -> pathname request = "/generate" ->
  (exists e, json request = Malformed e) \/ json request = Parsed JNull ->
  (exists msg details,
     Worker.fetch engine request env =
     Worker.Answered
       {| status := 500; headers := jsonHeaders ++ Worker.corsHeaders;
          body := Json (gatewayError msg "WORKER_ERROR" details) |}) /\
  (forall now s, exists msg,
     Coordinator.fetch env now request s =
     Coordinator.Replied
       {| status := 500; headers := jsonHeaders;
          body := Json (JObject [("error", JString msg);
                                 ("code", JString "DURABLE_OBJECT_ERROR")]) |} s).
Proof.
  intros Hm Hp Hbody. unfold Worker.fetch, Coordinator.fetch. rewrite Hm, Hp. simpl.
  destruct Hbody as [[e ->] | ->]; simpl.
  - split; [|intros now s]; repeat eexists.
  - split; [|intros now s]; repeat eexists.
Qed.

Lemma unreadable_body_is_an_internal_error_witness :
  exists msg details,
    Worker.fetch someEngine
                 {| method := "POST"; pathname := "/generate"; json := Parsed JNull |}
                 someEnv =
    Worker.Answered
      {| status := 500; headers := jsonHeaders ++ Worker.corsHeaders;
         body := Json (gatewayError msg "WORKER_ERROR" details) |}.
Proof.
  destruct (unreadable_body_is_an_internal_error someEngine
              {| method := "POST"; pathname := "/generate"; json := Parsed JNull |}
              someEnv eq_refl eq_refl (or_intror eq_refl)) as [H _].
  exact H.
Defined.

Section CoordinatorFetch.

Lemma sweep_submap env now store :
  (cleanupExpiredEntries env now store).1 ⊆ store.
Proof.
  apply map_subseteq_spec. intros k e.
  rewrite (proj1 (cleanupExpiredEntries_spec env now store) k).
  destruct (store !! k) as [e0|]; simpl; [|discriminate].
  unfold kept. destruct (expired _ e0); [discriminate|]. intros H; exact H.
Qed.

End CoordinatorFetch.

(** X10. Whatever the request, [fetch] of the coordinator leaves the
    pending table, the promises and the upstream log as they are, adds
    no entry to the store and changes none (only [POST /cleanup] may
    remove some), and at most appends one caller. *)
Theorem coordinator_fetch_frame (env : Env) (now : Z) (request : Request)
    (s : DurableObject) :
  exists s',
    (Coordinator.fetch env now request s = Coordinator.Suspended s' \/
     exists r, Coordinator.fetch env now request s = Coordinator.Replied r s') /\
    pendingRequests s' = pendingRequests s /\
    promises s' = promises s /\
    upstream s' = upstream s /\
    storage s' ⊆ storage s /\
    (callers s' = callers s \/ exists req, callers s' = (callers s ++ [Entered req])%list).
Proof.
  unfold Coordinator.fetch.
  destruct (String.eqb (pathname request) "/health").
  { exists s. split; [right; eexists; reflexivity|]. repeat split; auto. }
  destruct (String.eqb (pathname request) "/generate" && _).
  { destruct (json request) as [e|v].
    { exists s. split; [right; eexists; reflexivity|]. repeat split; auto. }
    destruct (asRequest "temperature" v) as [req|e].
    - eexists. split; [left; reflexivity|]. simpl. repeat split; auto.
      right. exists req. reflexivity.
    - exists s. split; [right; eexists; reflexivity|]. repeat split; auto. }
  destruct (String.eqb (pathname request) "/cleanup" && _).
  { pose proof (sweep_submap env now (storage s)) as Hsub.
    destruct (cleanupExpiredEntries env now (storage s)) as [store deleted].
    eexists. split; [right; eexists; reflexivity|]. simpl. repeat split; auto. }
  exists s. split; [right; eexists; reflexivity|]. repeat split; auto.
Qed.

Section Upstream.

Lemma messageOr_nonempty c rest fallback :
  messageOr (newError (String c rest)) fallback = String c rest.
Proof. reflexivity. Qed.

Lemma app_cons c s t : String c s +:+ t = String c (s +:+ t).
Proof. reflexivity. Qed.

End Upstream.

(** X11. When the upstream answers with a status outside 200-299,
    [callOpenAI] throws an error whose message names the status and the
    body text, whatever the body holds; the coordinator's reply and the
    worker's response for that error are a 500 of code
    [DURABLE_OBJECT_ERROR] carrying that message. *)
Theorem upstream_http_error_reaches_client (engine : Engine) (env : Env) (st : Z) (text : string)
    (parsed : JsonBody) :
  st < 200 \/ 299 < st ->
  let msg := "OpenAI API error: " +:+ pretty st +:+ " - " +:+ text in
  callOpenAI (HttpResponse st text parsed) = Throw (newError msg) /\
  Worker.respond engine env (Coordinator.generateReply (Throw (newError msg))) =
  {| status := 500;
     headers := jsonHeaders ++ Worker.corsHeaders;
     body := Json (JObject [("error", JString msg);
                            ("code", JString "DURABLE_OBJECT_ERROR")]) |}.
Proof.
  intros Hst msg. split.
  - unfold callOpenAI.
    replace ((200 <=? st) && (st <=? 299)) with false; [reflexivity|].
    symmetry. apply andb_false_iff. destruct Hst; [left | right]; lia.
  - subst msg. rewrite app_cons. reflexivity.
Qed.

Lemma upstream_http_error_reaches_client_witness :
  callOpenAI upstreamDown = Throw (newError "OpenAI API error: 503 - overloaded").
Proof.
  destruct (upstream_http_error_reaches_client someEngine someEnv 503 "overloaded"
              (Malformed (newError "Unexpected token"))) as [H _].
  - right. lia.
  - exact H.
Defined.

Section Sweeps.

Lemma kept_kept cutoff (o : option CachedEntry) :
  (o ≫= kept cutoff) ≫= kept cutoff = o ≫= kept cutoff.
Proof.
  destruct o as [e|]; simpl; [|reflexivity].
  unfold kept. destruct (expired cutoff e) eqn:He; simpl; [reflexivity|].
  rewrite He. reflexivity.
Qed.

Lemma sweep_pair env now store m :
  (forall k, (cleanupExpiredEntries env now store).1 !! k = m !! k) ->
  (cleanupExpiredEntries env now store).1 = m.
Proof. intros H. apply map_eq. exact H. Qed.

End Sweeps.

(** X12. The sweep is idempotent: a second sweep at the same time and
    under the same retention finds nothing to delete, returns 0 and leaves
    the store as the first sweep left it. *)
Theorem sweep_idempotent (env : Env) (now : Z) (store : gmap string CachedEntry) :
  cleanupExpiredEntries env now (cleanupExpiredEntries env now store).1 =
  ((cleanupExpiredEntries env now store).1, 0).
Proof.
  destruct (cleanupExpiredEntries_spec env now store) as [Hlook _].
  destruct (cleanupExpiredEntries_spec env now (cleanupExpiredEntries env now store).1)
    as [Hlook2 Hcount2].
  assert (Hsame : (cleanupExpiredEntries env now (cleanupExpiredEntries env now store).1).1
                  = (cleanupExpiredEntries env now store).1).
  { apply map_eq. intros k. rewrite Hlook2, Hlook. apply kept_kept. }
  rewrite Hsame in Hcount2.
  destruct (cleanupExpiredEntries env now (cleanupExpiredEntries env now store).1)
    as [m n]; simpl in *.
  subst m. f_equal. lia.
Qed.

(** X13. When [CACHE_RETENTION_DAYS] holds a text that does not start
    with a number, the cutoff is not a number and the sweep deletes
    nothing: it returns 0 and the store is unchanged, whatever the age of
    the entries. *)
Theorem sweep_without_horizon (env : Env) (now : Z) (store : gmap string CachedEntry) :
  retentionDays env = Double.NaN ->
  cleanupExpiredEntries env now store = (store, 0).
Proof.
  intros Hnan.
  destruct (cleanupExpiredEntries_spec env now store) as [Hlook Hcount].
  assert (Hsame : (cleanupExpiredEntries env now store).1 = store).
  { apply map_eq. intros k. rewrite Hlook. unfold cutoffTime. rewrite Hnan. simpl.
    destruct (store !! k); reflexivity. }
  rewrite Hsame in Hcount.
  destruct (cleanupExpiredEntries env now store) as [m n]; simpl in *.
  subst m. f_equal. lia.
Qed.

Lemma sweep_without_horizon_witness :
  cleanupExpiredEntries
    {| OPENAI_API_KEY := "sk"; SIGNING_SECRET := Some "secret";
       CACHE_RETENTION_DAYS := Some "ninety" |} sweepTime sweepStore = (sweepStore, 0).
Proof. apply sweep_without_horizon. reflexivity. Defined.

(** X14. [callOpenAI] returns a content only for an upstream response
    with a status in 200-299 whose body is JSON, and the content is the
    string found at [choices[0].message.content] of that body. *)
Theorem callOpenAI_content (o : UpstreamOutcome) (text : string) :
  callOpenAI o = Ok text ->
  exists st errorText v choices msg,
    o = HttpResponse st errorText (Parsed v) /\
    200 <= st <= 299 /\
    Js.getProp v "choices" = Some choices /\
    Js.getProp (Js.first choices) "message" = Some msg /\
    Js.getProp msg "content" = Some (JString text).
Proof.
  destruct o as [e|st errorText parsed]; simpl; [discriminate|].
  destruct ((200 <=? st) && (st <=? 299)) eqn:Hst; simpl; [|discriminate].
  destruct parsed as [e|v]; [discriminate|].
  unfold extractContent.
  destruct (Js.getProp v "choices") as [choices|] eqn:Hchoices; [|discriminate].
  destruct (negb (Js.toBoolean choices) || _); [discriminate|].
  destruct (Js.getProp (Js.first choices) "message") as [msg|] eqn:Hmsg; [|discriminate].
  destruct (Js.getProp msg "content") as [c|] eqn:Hc; [|discriminate].
  destruct c; try discriminate. intros [= ->].
  exists st, errorText, v, choices, msg.
  apply andb_true_iff in Hst as [H1 H2].
  repeat split; try assumption; lia.
Qed.

Lemma callOpenAI_content_witness :
  exists st errorText v choices msg,
    upstreamOk "hello" = HttpResponse st errorText (Parsed v) /\
    200 <= st <= 299 /\
    Js.getProp v "choices" = Some choices /\
    Js.getProp (Js.first choices) "message" = Some msg /\
    Js.getProp msg "content" = Some (JString "hello").
Proof. exact (callOpenAI_content (upstreamOk "hello") "hello" eq_refl). Defined.

(** X15. On a response with a status in 200-299, [callOpenAI] still
    fails when the body has no [choices], or an empty [choices] array,
    with the message 'No choices in OpenAI response', and when the first
    choice's message has no string content, with the message 'Invalid
    content in OpenAI response'. *)
Theorem callOpenAI_rejects_empty_answers (st : Z) (errorText : string)
    (props : list (string * jsval)) :
  200 <= st <= 299 ->
  (Js.lookupProp "choices" props = JUndefined \/ Js.lookupProp "choices" props = JArray [] ->
   callOpenAI (HttpResponse st errorText (Parsed (JObject props))) =
   Throw (newError "No choices in OpenAI response")) /\
  (forall first rest msg c,
     Js.lookupProp "choices" props = JArray (first :: rest) ->
     Js.getProp first "message" = Some msg ->
     Js.getProp msg "content" = Some c ->
     (forall s, c <> JString s) ->
     callOpenAI (HttpResponse st errorText (Parsed (JObject props))) =
     Throw (newError "Invalid content in OpenAI response")).
Proof.
  intros Hst.
  assert (Hok : (200 <=? st) && (st <=? 299) = true)
    by (apply andb_true_iff; split; lia).
  unfold callOpenAI, extractContent. rewrite Hok. simpl. split.
  - intros [-> | ->]; reflexivity.
  - intros first rest msg c Hchoices Hmsg Hc Hnot. rewrite Hchoices. simpl.
    rewrite Hmsg, Hc. destruct c; try reflexivity. exfalso. eapply Hnot. reflexivity.
Qed.

Lemma callOpenAI_rejects_empty_answers_witness :
  callOpenAI (HttpResponse 200 "" (Parsed (JObject [("choices", JArray [])]))) =
  Throw (newError "No choices in OpenAI response").
Proof.
  apply (proj1 (callOpenAI_rejects_empty_answers 200 "" [("choices", JArray [])]
                  ltac:(lia))).
  right. reflexivity.
Defined.

(** X16. A request with [max_tokens] 0 is sent upstream with
    [max_tokens] 150, while its cache key hashes 0: it sends the very same
    upstream request as the request that leaves [max_tokens] out, but the
    two hash different strings, so the same generation is cached under two
    keys. *)
Theorem max_tokens_zero_divergence (req : GatewayRequest) :
  max_tokens req = JNumber 0 ->
  oa_max_tokens (openaiRequest req) = JNumber 150 /\
  openaiRequest (withMaxTokens JUndefined req) = openaiRequest req /\
  keyString (withMaxTokens JUndefined req) <> keyString req.
Proof.
  intros H0. unfold openaiRequest, keyString, withMaxTokens; simpl. rewrite H0.
  split; [reflexivity|]. split; [reflexivity|].
  intros H. do 10 apply append_cancel_l in H. vm_compute in H. discriminate H.
Qed.

Lemma max_tokens_zero_divergence_witness :
  oa_max_tokens (openaiRequest (withMaxTokens (JNumber 0) bareRequest)) = JNumber 150 /\
  keyString (withMaxTokens (JNumber 0) bareRequest) = "m:p::0:12345:0" /\
  keyString bareRequest = "m:p::0:12345:150".
Proof.
  destruct (max_tokens_zero_divergence (withMaxTokens (JNumber 0) bareRequest) eq_refl)
    as (Hsent & _ & _).
  split; [exact Hsent|]. split; reflexivity.
Defined.

Section KeyFormat.

Lemma hexDigit_hexChar d : 0 <= d < 16 -> hexChar (Bytes.hexDigit d) = true.
Proof.
  intros Hd.
  assert (Hcases : d = 0 \/ d = 1 \/ d = 2 \/ d = 3 \/ d = 4 \/ d = 5 \/ d = 6 \/ d = 7 \/
                   d = 8 \/ d = 9 \/ d = 10 \/ d = 11 \/ d = 12 \/ d = 13 \/ d = 14 \/
                   d = 15) by lia.
  repeat (destruct Hcases as [-> | Hcases]; [reflexivity|]). subst. reflexivity.
Qed.

Lemma toHex_hexChars bs :
  Forall (fun b => 0 <= b < 256) bs ->
  forallb hexChar (list_ascii_of_string (Bytes.toHex bs)) = true.
Proof.
  induction 1 as [|b bs Hb _ IH]; [reflexivity|].
  change (Bytes.toHex (b :: bs))
    with (String (Bytes.hexDigit (Z.shiftr b 4))
            (String (Bytes.hexDigit (Z.land b 15)) (Bytes.toHex bs))).
  cbn [list_ascii_of_string forallb]. rewrite IH, !hexDigit_hexChar; [reflexivity| |].
  - change 15 with (Z.ones 4). rewrite Z.land_ones by lia.
    apply Z.mod_pos_bound. reflexivity.
  - rewrite Z.shiftr_div_pow2 by lia. change (2 ^ 4) with 16.
    split; [apply Z.div_pos; lia | apply Z.div_lt_upper_bound; lia].
Qed.

Lemma bigEndian_bytes n x : Forall (fun b => 0 <= b < 256) (Bytes.bigEndian n x).
Proof.
  induction n as [|n IH]; cbn [Bytes.bigEndian]; constructor; [|exact IH].
  change 255 with (Z.ones 8). rewrite Z.land_ones by lia.
  apply Z.mod_pos_bound. reflexivity.
Qed.

Lemma digest_bytes msg : Forall (fun b => 0 <= b < 256) (Sha256.digest msg).
Proof.
  unfold Sha256.digest. generalize (Sha256.blocks (length (Sha256.pad msg) / 64)
                                      Sha256.H0 (Sha256.pad msg)).
  intros ws. induction ws as [|w ws IH]; [constructor|].
  cbn [flat_map]. apply Forall_app. split; [apply (bigEndian_bytes 4) | exact IH].
Qed.

Lemma generateCacheKey_length req : String.length (generateCacheKey req) = 64%nat.
Proof.
  unfold generateCacheKey. rewrite toHex_length, digest_length. reflexivity.
Qed.

(** Two strings of the same length in front of two others. *)
Lemma append_same_length a b x y :
  String.length a = String.length b -> a +:+ x = b +:+ y -> a = b /\ x = y.
Proof.
  revert b. induction a as [|c a IH]; intros [|d b] Hlen H; simpl in Hlen;
    try discriminate Hlen.
  - split; [reflexivity | exact H].
  - rewrite !app_cons in H. injection H as -> H. injection Hlen as Hlen.
    destruct (IH b Hlen H) as [-> ->]. split; reflexivity.
Qed.

End KeyFormat.

(** X17. Whatever the request, the cache key is 64 characters long and
    made of the lower-case hexadecimal digits only. *)
Theorem generateCacheKey_is_hex (req : GatewayRequest) :
  String.length (generateCacheKey req) = 64%nat /\
  forallb hexChar (list_ascii_of_string (generateCacheKey req)) = true.
Proof.
  split; [apply generateCacheKey_length|].
  unfold generateCacheKey. apply toHex_hexChars, digest_bytes.
Qed.

(** X18. The text [generateSignature] signs for a cache key determines
    both the key and the content: two signed texts built from cache keys
    are equal only if the keys are equal and the contents are equal. *)
Theorem signed_text_unambiguous (r1 r2 : GatewayRequest) (content1 content2 : string) :
  generateCacheKey r1 +:+ ":" +:+ content1 = generateCacheKey r2 +:+ ":" +:+ content2 ->
  generateCacheKey r1 = generateCacheKey r2 /\ content1 = content2.
Proof.
  intros H.
  apply append_same_length in H as [Hkey H];
    [|rewrite !generateCacheKey_length; reflexivity].
  split; [exact Hkey|]. rewrite !app_cons in H. injection H as H. exact H.
Qed.

Lemma signed_text_unambiguous_witness :
  generateCacheKey bareRequest = generateCacheKey bareRequest /\ "hello" = "hello".
Proof.
  apply (signed_text_unambiguous bareRequest bareRequest "hello" "hello"). reflexivity.
Defined.

(** X19. A request that passes validation is posted upstream with its
    model, a non-empty string, its prompt, a non-empty string, as the
    user message after the system message, the temperature 0, which is
    also the temperature its cache key hashes, and its seed as
    [JSON.stringify] writes it: the seed itself when it is finite, [null]
    when it is not. *)
Theorem valid_request_upstream (req : GatewayRequest) :
  valid (validateRequest req) = true ->
  let posted := openaiBody (openaiRequest req) in
  exists m p,
    model req = JString m /\ m <> "" /\ prompt req = JString p /\ p <> "" /\
    isNumber (seed req) /\
    Js.getProp posted "model" = Some (JString m) /\
    Js.getProp posted "messages" =
      Some (JArray
        [ JObject [("role", JString "system");
                   ("content",
                    Js.jsonValue (Js.orElse (system_prompt req)
                                            (JString "You are a helpful assistant.")))];
          JObject [("role", JString "user"); ("content", JString p)] ]) /\
    Js.getProp posted "temperature" = Some (JNumber 0) /\
    Js.toString (Js.nullish (temperature req) (JNumber 0)) = "0" /\
    Js.getProp posted "seed" = Some (Js.jsonValue (seed req)) /\
    (forall n, seed req = JNumber n -> Js.getProp posted "seed" = Some (JNumber n)) /\
    (forall decimal, seed req = JFraction decimal -> Js.notFinite decimal = true ->
       Js.getProp posted "seed" = Some JNull).
Proof.
  intros Hvalid posted.
  destruct (valid (validateRequest req)) eqn:Hv; [clear Hvalid | discriminate].
  assert (Hnot : ~ (~ nonEmptyString (model req) \/ ~ nonEmptyString (prompt req) \/
                    ~ isNumber (seed req) \/
                    (present (temperature req) /\ temperature req <> JNumber 0))).
  { intros H. apply validateRequest_rejects in H. congruence. }
  assert (Hm : nonEmptyString (model req)).
  { apply nonEmptyString_spec.
    destruct (negb (Js.toBoolean (model req)) || _) eqn:E; [|reflexivity].
    exfalso. apply Hnot. left. rewrite nonEmptyString_spec. congruence. }
  assert (Hp : nonEmptyString (prompt req)).
  { apply nonEmptyString_spec.
    destruct (negb (Js.toBoolean (prompt req)) || _) eqn:E; [|reflexivity].
    exfalso. apply Hnot. right; left. rewrite nonEmptyString_spec. congruence. }
  assert (Hs : isNumber (seed req)).
  { apply isNumber_spec.
    destruct (negb (String.eqb (Js.typeof (seed req)) "number")) eqn:E; [|reflexivity].
    exfalso. apply Hnot. right; right; left. rewrite isNumber_spec. congruence. }
  assert (Htemp : Js.notNumber (Js.nullish (temperature req) (JNumber 0)) 0 = false).
  { destruct (Js.notNumber _ 0) eqn:E; [|reflexivity].
    exfalso. apply Hnot. right; right; right. apply temperature_spec. exact E. }
  destruct Hm as (m & Hmodel & Hmne). destruct Hp as (p & Hprompt & Hpne).
  assert (Hsent : forall name,
            Js.getProp posted name =
            Some (Js.jsonValue (Js.lookupProp name
              [("model", JString m);
               ("messages",
                JArray [ JObject [("role", JString "system");
                                  ("content", Js.orElse (system_prompt req)
                                     (JString "You are a helpful assistant."))];
                         JObject [("role", JString "user"); ("content", JString p)] ]);
               ("temperature", JNumber 0);
               ("seed", seed req);
               ("max_tokens", Js.orElse (max_tokens req) (JNumber 150))]))).
  { intros name. unfold posted, openaiBody, openaiRequest.
    cbn [oa_model messages oa_temperature oa_seed oa_max_tokens map role msg_content].
    rewrite Hmodel, Hprompt. cbn [Js.jsonValue Js.getProp].
    rewrite lookupProp_written. reflexivity. }
  assert (Hsystem : Js.orElse (system_prompt req) (JString "You are a helpful assistant.")
                    <> JUndefined).
  { unfold Js.orElse. destruct (Js.toBoolean (system_prompt req)) eqn:E; [|discriminate].
    intros H. rewrite H in E. discriminate E. }
  assert (Hseed : Js.getProp posted "seed" = Some (Js.jsonValue (seed req))).
  { rewrite Hsent. f_equal. f_equal.
    destruct Hs as [(n & ->) | (decimal & ->)];
      destruct (Js.orElse (max_tokens req) (JNumber 150)); reflexivity. }
  exists m, p. split; [exact Hmodel|]. split; [exact Hmne|]. split; [exact Hprompt|].
  split; [exact Hpne|]. split; [exact Hs|]. split; [|split; [|split; [|split; [|split]]]].
  - rewrite Hsent.
    destruct Hs as [(n & ->) | (decimal & ->)];
      destruct (Js.orElse (max_tokens req) (JNumber 150)); reflexivity.
  - rewrite Hsent.
    destruct (Js.orElse (system_prompt req) (JString "You are a helpful assistant."))
      eqn:Hsp; try contradiction;
      destruct Hs as [(n' & ->) | (decimal' & ->)];
      destruct (Js.orElse (max_tokens req) (JNumber 150)); reflexivity.
  - rewrite Hsent.
    destruct Hs as [(n & ->) | (decimal & ->)];
      destruct (Js.orElse (max_tokens req) (JNumber 150)); reflexivity.
  - destruct (temperature req); simpl in Htemp |- *; try discriminate; try reflexivity.
    destruct (Z.eqb_spec n 0); [subst; reflexivity | discriminate].
  - exact Hseed.
  - split.
    + intros n Hn. rewrite Hseed, Hn. reflexivity.
    + intros decimal Hd Hinf. rewrite Hseed, Hd. cbn [Js.jsonValue]. rewrite Hinf.
      reflexivity.
Qed.

Lemma valid_request_upstream_witness :
  Js.getProp (openaiBody (openaiRequest infiniteSeedRequest)) "seed" = Some JNull /\
  Js.getProp (openaiBody (openaiRequest bareRequest)) "seed" = Some (JNumber 12345).
Proof.
  split.
  - destruct (valid_request_upstream infiniteSeedRequest eq_refl)
      as (m & p & _ & _ & _ & _ & _ & _ & _ & _ & _ & _ & _ & Hinf).
    exact (Hinf "Infinity" eq_refl eq_refl).
  - vm_compute. reflexivity.
Defined.

Section Sequential.

Lemma run_cons ev evs s s' : step ev s = Some s' -> run (ev :: evs) s = run evs s'.
Proof. intros H. cbn [run]. rewrite H. reflexivity. Qed.

Ltac advance :=
  match goal with
  | |- run (?ev :: ?evs) ?s = _ => rewrite (run_cons ev evs s _ eq_refl)
  end.

(** A first call that generates, then a second call for the same request. *)
Lemma run_generate_then_hit store req o text t1 t2 t3 :
  store !! generateCacheKey req = None ->
  callOpenAI o = Ok text ->
  run [ Call req; KeyReady 0; GetDone 0 t1; UpstreamDone 0 o t2; PutDone 0; Resume 0;
        Call req; KeyReady 1; GetDone 1 t3; Resume 1 ] (construct store) =
  Some {| storage := <[generateCacheKey req :=
                         touch t3 (newEntry (generateCacheKey req) req text t2)]>
                       (<[generateCacheKey req :=
                            newEntry (generateCacheKey req) req text t2]> store);
          pendingRequests := delete (generateCacheKey req)
                               (<[generateCacheKey req := 0%nat]> ∅);
          promises := [Fulfilled (newEntry (generateCacheKey req) req text t2)];
          callers :=
            [ Returned (Ok (newEntry (generateCacheKey req) req text t2, false));
              Returned (Ok (touch t3 (newEntry (generateCacheKey req) req text t2), true)) ];
          upstream := [openaiRequest req] |}.
Proof.
  intros Hmiss Hok.
  advance.
  advance.
  advance.
  unfold afterGet at 1. cbn [storage pendingRequests setCaller construct].
  rewrite Hmiss, lookup_empty.
  advance.
  unfold afterUpstream at 1. rewrite Hok.
  advance.
  advance.
  advance.
  advance.
  advance.
  unfold afterGet at 1.
  cbn [storage pendingRequests setCaller setPromise put release].
  rewrite lookup_insert_eq.
  advance.
  reflexivity.
Qed.

End Sequential.

(** X20. Two calls in sequence for the same request, on a fingerprint
    that is not in the store and with an upstream that answers: one
    request goes upstream; the first caller is answered with
    [cached = false], the second with [cached = true]; once signed by the
    worker, the two responses carry the same content, model, seed,
    request hash and signature. *)
Theorem sequential_calls_agree (store : gmap string CachedEntry) (req : GatewayRequest)
    (o : UpstreamOutcome) (text : string) (t1 t2 t3 : Z) (env : Env) (secret : string) :
  store !! generateCacheKey req = None ->
  callOpenAI o = Ok text ->
  SIGNING_SECRET env = Some secret -> secret <> "" ->
  exists s first second signature,
    run [ Call req; KeyReady 0; GetDone 0 t1; UpstreamDone 0 o t2; PutDone 0; Resume 0;
          Call req; KeyReady 1; GetDone 1 t3; Resume 1 ] (construct store) = Some s /\
    callers s = [Returned (Ok (first, false)); Returned (Ok (second, true))] /\
    upstream s = [openaiRequest req] /\
    (forall engine entry cached,
       (entry, cached) = (first, false) \/ (entry, cached) = (second, true) ->
       Worker.respond engine env (Coordinator.generateReply (Ok (entry, cached))) =
       {| status := 200;
          headers := jsonHeaders ++ Worker.corsHeaders;
          body := Json (Js.object
            [("content", JString text); ("model", model req); ("seed", seed req);
             ("signature", JString signature); ("cached", JBool cached);
             ("request_hash", JString (generateCacheKey req))]) |}).
Proof.
  intros Hmiss Hok Hsecret Hne.
  eexists. eexists. eexists. eexists.
  split; [apply (run_generate_then_hit store req o text t1 t2 t3 Hmiss Hok)|].
  cbn [callers upstream]. split; [reflexivity|]. split; [reflexivity|].
  intros engine entry cached [[= -> ->] | [= -> ->]];
    rewrite (respond_success engine _ _ _ _ Hsecret Hne); reflexivity.
Qed.

Lemma sequential_calls_agree_witness :
  exists s first second,
    run [ Call bareRequest; KeyReady 0; GetDone 0 100; UpstreamDone 0 (upstreamOk "hello") 200;
          PutDone 0; Resume 0; Call bareRequest; KeyReady 1; GetDone 1 300; Resume 1 ]
        (construct ∅) = Some s /\
    callers s = [Returned (Ok (first, false)); Returned (Ok (second, true))] /\
    upstream s = [openaiRequest bareRequest].
Proof.
  destruct (sequential_calls_agree ∅ bareRequest (upstreamOk "hello") "hello" 100 200 300
              someEnv "secret")
    as (s & first & second & signature & Hrun & Hcallers & Hup & _).
  - apply lookup_empty.
  - reflexivity.
  - reflexivity.
  - discriminate.
  - exists s, first, second. repeat split; assumption.
Defined.

(** X21. A retention period configured as a decimal numeral is read as
    the number nearest to that numeral, also when the numeral is followed
    by text that does not begin with a digit (a unit, a fraction); when
    the days, in milliseconds, stay below [2^53], the cutoff of a sweep at
    a time [now] is [now - days * 86400000]. *)
Theorem retention_days_round_trip (env : Env) (days : N) (rest : string) (now : Z) :
  CACHE_RETENTION_DAYS env = Some (pretty days +:+ rest) ->
  (forall c r, rest = String c r -> (N_of_ascii c < 48 \/ 57 < N_of_ascii c)%N) ->
  retentionDays env = Double.round (Z.of_N days) /\
  (timestamp now -> Z.of_N days * 24 * 60 * 60 * 1000 < 2 ^ 53 ->
   cutoffTime env now = Double.Finite (now - Z.of_N days * 24 * 60 * 60 * 1000)).
Proof.
  intros Henv Hrest.
  pose proof (retentionDays_numeral env days rest Henv Hrest) as Hdays.
  split; [exact Hdays|]. intros Hnow Hsmall. unfold timestamp in Hnow.
  unfold cutoffTime. rewrite Hdays. cbv zeta.
  pose proof (N2Z.is_nonneg days) as Hpos.
  rewrite (round_small (Z.of_N days)) by lia. cbn [Double.mul].
  rewrite (round_small (Z.of_N days * 24)) by lia. cbn [Double.mul].
  rewrite (round_small (Z.of_N days * 24 * 60)) by lia. cbn [Double.mul].
  rewrite (round_small (Z.of_N days * 24 * 60 * 60)) by lia. cbn [Double.mul].
  rewrite (round_small (Z.of_N days * 24 * 60 * 60 * 1000)) by lia. cbn [Double.sub].
  rewrite round_small by lia. reflexivity.
Qed.

Lemma retention_days_round_trip_witness :
  retentionDays {| OPENAI_API_KEY := "sk"; SIGNING_SECRET := None;
                   CACHE_RETENTION_DAYS := Some "9007199254740993 days" |} =
  Double.Finite 9007199254740992.
Proof.
  destruct (retention_days_round_trip
              {| OPENAI_API_KEY := "sk"; SIGNING_SECRET := None;
                 CACHE_RETENTION_DAYS := Some "9007199254740993 days" |}
              9007199254740993 " days" 0) as [H _].
  - reflexivity.
  - intros c r [= <- _]. left. vm_compute. reflexivity.
  - rewrite H. vm_compute. reflexivity.
Defined.
